(** * rmonitor: a shallow embedding of the Reddit keyword monitor

    The development follows [reddit_monitor.go] (the MongoDB-backed
    program) function by function.  The two older variants kept in the
    repository are embedded next to it where they differ: the JSON-file
    variant (in-memory map plus whole-file rewrite) in [Module FileStore]
    and the matcher of the first tutorial listing (substrings instead
    of whole words) in [Module Tutorial].

    Conventions.
    - A Go [string] is a sequence of bytes: Stdlib's [string], whose
      characters are the 8-bit [ascii].
    - Calls that leave the process (HTTP, SMTP, MongoDB, the file system,
      the clock) get their outcome from an environment [Env], indexed by
      the number of calls made so far; the process state [World] carries
      that counter, the external collection and the trace of observable
      events.
    - Go library functions are named after their qualified Go name with
      the dot replaced by an underscore ([strings_ToLower],
      [regexp_QuoteMeta], [regexp_Compile]). *)

From Stdlib Require Import ZArith NArith Lia Bool List Ascii Floats.
From stdpp Require Import base strings list gmap.

Local Open Scope N_scope.

(* stdpp keeps [String.append] folded; the proofs below compute with it. *)
#[local] Arguments String.append _ _ : simpl nomatch.

(** ** Bytes *)

Definition byteval (c : ascii) : N := N_of_ascii c.

Definition inRange (lo hi : N) (c : ascii) : bool :=
  (lo <=? byteval c) && (byteval c <=? hi).

Definition isUpper (c : ascii) : bool := inRange 65 90 c.
Definition isLower (c : ascii) : bool := inRange 97 122 c.
Definition isDigit (c : ascii) : bool := inRange 48 57 c.
Definition isalnum (c : ascii) : bool := isDigit c || isUpper c || isLower c.

(** [\w] of RE2, the class behind [\b]: [0-9A-Za-z_]. *)
Definition isWordChar (c : ascii) : bool := isalnum c || (byteval c =? 95).

(** Lower-casing of one character.  The case tables are modelled on the
    ASCII range, where the configured keywords live; a byte of a
    multi-byte UTF-8 sequence is left as it is. *)
Definition unicode_ToLower (c : ascii) : ascii :=
  if isUpper c then ascii_of_N (byteval c + 32) else c.

(** [strings.ToLower]. *)
Fixpoint strings_ToLower (s : string) : string :=
  match s with
  | EmptyString => EmptyString
  | String c s' => String (unicode_ToLower c) (strings_ToLower s')
  end.

(** ** UTF-8 validity ([unicode/utf8]) *)

(** The decoder of [utf8.DecodeRuneInString] as an automaton: the state
    records how the bytes still owed by the current rune are constrained
    (the [acceptRanges] table of the Go package). *)
Inductive Utf8State : Type :=
| U_Start            (* at a rune boundary *)
| U_Tail1            (* one continuation byte 80..BF owed *)
| U_Tail2            (* two owed *)
| U_Tail3            (* three owed *)
| U_E0               (* after E0: next is A0..BF, then one more *)
| U_ED               (* after ED: next is 80..9F, then one more *)
| U_F0               (* after F0: next is 90..BF, then two more *)
| U_F4.              (* after F4: next is 80..8F, then two more *)

Definition utf8_first (c : ascii) : option Utf8State :=
  if byteval c <? 128 then Some U_Start
  else if inRange 194 223 c then Some U_Tail1
  else if byteval c =? 224 then Some U_E0
  else if inRange 225 236 c then Some U_Tail2
  else if byteval c =? 237 then Some U_ED
  else if inRange 238 239 c then Some U_Tail2
  else if byteval c =? 240 then Some U_F0
  else if inRange 241 243 c then Some U_Tail3
  else if byteval c =? 244 then Some U_F4
  else None.

Definition utf8_step (st : Utf8State) (c : ascii) : option Utf8State :=
  match st with
  | U_Start => utf8_first c
  | U_Tail1 => if inRange 128 191 c then Some U_Start else None
  | U_Tail2 => if inRange 128 191 c then Some U_Tail1 else None
  | U_Tail3 => if inRange 128 191 c then Some U_Tail2 else None
  | U_E0 => if inRange 160 191 c then Some U_Tail1 else None
  | U_ED => if inRange 128 159 c then Some U_Tail1 else None
  | U_F0 => if inRange 144 191 c then Some U_Tail2 else None
  | U_F4 => if inRange 128 143 c then Some U_Tail2 else None
  end.

Fixpoint utf8_run (st : Utf8State) (s : string) : bool :=
  match s with
  | EmptyString => match st with U_Start => true | _ => false end
  | String c s' =>
      match utf8_step st c with
      | Some st' => utf8_run st' s'
      | None => false
      end
  end.

(** [utf8.ValidString]. *)
Definition utf8_ValidString (s : string) : bool := utf8_run U_Start s.

(** ** The [regexp] package, on the fragment the monitor uses *)

(** [specialBytes] of [regexp.QuoteMeta]: [\.+*?()|[]{}^$]. *)
Definition special (c : ascii) : bool :=
  match byteval c with
  | 92 | 46 | 43 | 42 | 63 | 40 | 41 | 124 | 91 | 93 | 123 | 125 | 94 | 36 => true
  | _ => false
  end.

Definition backslash : ascii := ascii_of_N 92.

(** [regexp.QuoteMeta]: a backslash in front of every special byte. *)
Fixpoint regexp_QuoteMeta (s : string) : string :=
  match s with
  | EmptyString => EmptyString
  | String c s' =>
      if special c then String backslash (String c (regexp_QuoteMeta s'))
      else String c (regexp_QuoteMeta s')
  end.

(** A compiled expression of the fragment: a concatenation of word
    boundary assertions and single-character literals, each literal
    carrying the fold-case flag in force where it was parsed. *)
Inductive Inst : Type :=
| EmptyWordBoundary
| Rune (foldCase : bool) (r : ascii).

Definition Regexp : Type := list Inst.

Inductive ErrorCode : Type :=
| ErrInvalidUTF8
| ErrTrailingBackslash.

(** Outcome of [regexp.Compile].  [NotModelled] marks syntax outside the
    fragment (operators, groups, classes, alphanumeric escapes other
    than [\b]); [QuotedPattern_compiles] below shows that the patterns
    built by [findKeywords] never reach it. *)
Inductive CompileResult : Type :=
| Compiled (re : Regexp)
| CompileError (code : ErrorCode)
| NotModelled.

Definition consInst (i : Inst) (r : CompileResult) : CompileResult :=
  match r with
  | Compiled re => Compiled (i :: re)
  | other => other
  end.

(** Bytes the parser of [regexp/syntax] dispatches on; every other byte
    starts a literal. *)
Definition isOperator (c : ascii) : bool :=
  match byteval c with
  | 40 | 124 | 41 | 94 | 36 | 46 | 91 | 42 | 43 | 63 | 123 => true
  | _ => false
  end.

(** The parser loop of [syntax.Parse] on the fragment.  After a
    backslash: [b] is the word boundary; a non-alphanumeric ASCII
    character stands for itself ([parseEscape]). *)
Fixpoint parseSeq (foldCase : bool) (t : string) : CompileResult :=
  match t with
  | EmptyString => Compiled []
  | String c t1 =>
      if byteval c =? 92 then
        match t1 with
        | EmptyString => CompileError ErrTrailingBackslash
        | String d t2 =>
            if byteval d =? 98 then
              consInst EmptyWordBoundary (parseSeq foldCase t2)
            else if (byteval d <? 128) && negb (isalnum d) then
              consInst (Rune foldCase d) (parseSeq foldCase t2)
            else NotModelled
        end
      else if isOperator c then NotModelled
      else consInst (Rune foldCase c) (parseSeq foldCase t1)
  end.

(** The flag group [(?i)] at the head of an expression. *)
Definition foldCasePrefix : string := "(?i)".

Definition stripFlags (expr : string) : bool * string :=
  match expr with
  | String c0 (String c1 (String c2 (String c3 rest))) =>
      if (byteval c0 =? 40) && (byteval c1 =? 63) && (byteval c2 =? 105)
         && (byteval c3 =? 41)
      then (true, rest) else (false, expr)
  | _ => (false, expr)
  end.

(** [regexp.Compile]: an expression that is not valid UTF-8 is refused
    ([ErrInvalidUTF8], raised by [nextRune]); otherwise the expression is
    parsed. *)
Definition regexp_Compile (expr : string) : CompileResult :=
  if negb (utf8_ValidString expr) then CompileError ErrInvalidUTF8
  else let '(foldCase, rest) := stripFlags expr in parseSeq foldCase rest.

(** Matching.  A literal parsed under [(?i)] matches every character
    with the same case folding. *)
Definition runeMatches (foldCase : bool) (r c : ascii) : bool :=
  if foldCase then bool_decide (unicode_ToLower r = unicode_ToLower c)
  else bool_decide (r = c).

Definition isWordAt (o : option ascii) : bool :=
  match o with
  | Some c => isWordChar c
  | None => false
  end.

Definition headChar (s : string) : option ascii :=
  match s with
  | EmptyString => None
  | String c _ => Some c
  end.

(** [\b]: exactly one of the two neighbours is a word character; the
    start and the end of the text count as non-word. *)
Definition wordBoundary (prev : option ascii) (rest : string) : bool :=
  xorb (isWordAt prev) (isWordAt (headChar rest)).

(** The expression matched at the current position; [prev] is the
    character just before it. *)
Fixpoint matchHere (re : Regexp) (prev : option ascii) (s : string) : bool :=
  match re with
  | [] => true
  | EmptyWordBoundary :: re' => wordBoundary prev s && matchHere re' prev s
  | Rune foldCase r :: re' =>
      match s with
      | EmptyString => false
      | String c s' => runeMatches foldCase r c && matchHere re' (Some c) s'
      end
  end.

(** Unanchored search, leftmost start first. *)
Fixpoint matchFrom (re : Regexp) (prev : option ascii) (s : string) : bool :=
  matchHere re prev s ||
  match s with
  | EmptyString => false
  | String c s' => matchFrom re (Some c) s'
  end.

(** The method [MatchString] of a compiled expression. *)
Definition MatchString (re : Regexp) (s : string) : bool := matchFrom re None s.

(** ** Data model of the program *)

(** [Post]: the fields of a Reddit post the program decodes. *)
Record Post : Type := mkPost {
  Post_Title : string;
  Post_Selftext : string;
  Post_Permalink : string;
  Post_CreatedUtc : float;
  Post_Subreddit : string }.

(** [Comment]. *)
Record Comment : Type := mkComment {
  Comment_Body : string;
  Comment_Permalink : string;
  Comment_CreatedUtc : float;
  Comment_Subreddit : string }.

(** [PostResponse] and [CommentResponse]: a listing is
    [data.children[].data]. *)
Record Child (A : Type) : Type := mkChild { Child_Data : A }.
Arguments mkChild {A} _.
Arguments Child_Data {A} _.

Record Listing (A : Type) : Type := mkListing { Children : list (Child A) }.
Arguments mkListing {A} _.
Arguments Children {A} _.

Record Response (A : Type) : Type := mkResponse { Data : Listing A }.
Arguments mkResponse {A} _.
Arguments Data {A} _.

Definition PostResponse : Type := Response Post.
Definition CommentResponse : Type := Response Comment.

(** Configuration. *)
Definition subreddits : list string :=
  ["WholesaleRealestate"; "WholesalingHouses"; "realestateinvesting";
   "RealEstateTechnology"].
Definition keywords : list string := ["VA"; "leads"].

(** [strings.Join]. *)
Fixpoint strings_Join (elems : list string) (sep : string) : string :=
  match elems with
  | [] => ""
  | [x] => x
  | x :: rest => x +:+ sep +:+ strings_Join rest sep
  end.

Definition combinedSubreddits : string := strings_Join subreddits "+".
Definition postEndpoint : string :=
  "https://www.reddit.com/r/" +:+ combinedSubreddits +:+ "/new/.json?limit=100".
Definition commentEndpoint : string :=
  "https://www.reddit.com/r/" +:+ combinedSubreddits +:+ "/comments/.json?limit=100".
Definition userAgent : string := "GoRedditMonitor/1.0 (by /u/YourRedditUsername)".

(** Go's [error] values the program tells apart; [None] of
    [option error] is the nil error. *)
Inductive error : Type :=
| ErrNoDocuments                (* mongo.ErrNoDocuments *)
| ErrDuplicateKey               (* a write error with code 11000 *)
| ErrOther (what : string).

Definition mongo_IsDuplicateKeyError (err : error) : bool :=
  match err with
  | ErrDuplicateKey => true
  | _ => false
  end.

Inductive Kind : Type := KPost | KComment.

(** Lines written to standard output. *)
Inductive Line : Type :=
| LStarting
| LFatalEmailEnv
| LFatalMongoURI
| LFatalConnect
| LFatalPing
| LConnected
| LConfiguration
| LIndexWarn
| LIndexEnsured
| LEmailSent (recipient : string)
| LErrCompilingRegex (keyword : string)
| LErrCheckingMongo (k : Kind) (permalink : string)
| LFoundKeywords (k : Kind) (found : list string) (subreddit permalink : string)
| LErrSendingEmail (k : Kind)
| LInfoDuplicate (permalink : string)
| LErrInserting (k : Kind) (permalink : string)
| LFetching
| LErrFetching (k : Kind).

(** ** findKeywords *)

Definition keywordPattern (keyword : string) : string :=
  let escapedKeyword := regexp_QuoteMeta keyword in
  "(?i)\b" +:+ escapedKeyword +:+ "\b".

(** The loop of [findKeywords]: [found] is the slice built so far,
    [out] the lines printed so far. *)
Fixpoint findKeywords_loop (textLower : string) (keywords : list string)
    (found : list string) (out : list Line) : list string * list Line :=
  match keywords with
  | [] => (found, out)
  | keyword :: rest =>
      match regexp_Compile (keywordPattern keyword) with
      | Compiled re =>
          if MatchString re textLower
          then findKeywords_loop textLower rest (found ++ [keyword]) out
          else findKeywords_loop textLower rest found out
      | CompileError _ | NotModelled =>
          (* continue: skip this keyword *)
          findKeywords_loop textLower rest found
            (out ++ [LErrCompilingRegex keyword])
      end
  end.

Definition findKeywords_run (text : string) (keywords : list string)
    : list string * list Line :=
  let textLower := strings_ToLower text in
  findKeywords_loop textLower keywords [] [].

(** The slice [findKeywords] returns. *)
Definition findKeywords (text : string) (keywords : list string) : list string :=
  fst (findKeywords_run text keywords).

(** What [findKeywords] prints. *)
Definition findKeywords_output (text : string) (keywords : list string)
    : list Line :=
  snd (findKeywords_run text keywords).

(** ** The environment and the process state *)

(** What one HTTP round trip can come to: [DoError] when
    [httpClient.Do] fails (no connection, timeout); otherwise a response
    with its status code and the outcome of decoding its body as a
    listing ([None] when [Decode] returns an error). *)
Inductive HttpOutcome (R : Type) : Type :=
| DoError
| HttpResponse (statusCode : Z) (decoded : option R).
Arguments DoError {R}.
Arguments HttpResponse {R} _ _.

(** The world outside the process.  The answers that depend on when a
    call is made are indexed by the number of calls made before it. *)
Record Env : Type := mkEnv {
  os_Getenv : string -> string;
  url_refused : string -> bool;           (* http.NewRequest fails on it *)
  httpPosts : nat -> string -> HttpOutcome PostResponse;
  httpComments : nat -> string -> HttpOutcome CommentResponse;
  smtpFails : nat -> bool;
  mongoConnectFails : nat -> bool;
  mongoPingFails : nat -> bool;
  mongoIndexFails : nat -> bool;
  mongoFindFails : nat -> bool;
  mongoInsertFails : nat -> bool;
  time_Now : nat -> N }.

Definition gmailUser (e : Env) : string := os_Getenv e "GMAIL_USER".
Definition gmailAppPassword (e : Env) : string := os_Getenv e "GMAIL_APP_PASSWORD".
Definition recipientEmail (e : Env) : string := os_Getenv e "RECIPIENT_EMAIL".
Definition mongoURI (e : Env) : string := os_Getenv e "MONGODB_URI".

(** A document of the collection [processed_items]. *)
Record Doc : Type := mkDoc {
  permalink : string;
  processed_at : N }.

(** Calls and outputs, in the order they happen.  [EvFindKeywords] is
    bookkeeping: it records that [findKeywords] was run on a text. *)
Inductive Event : Type :=
| EvPrint (l : Line)
| EvHttpGet (endpoint agent : string)
| EvFindOne (permalink : string) (err : option error)
| EvFindKeywords (text : string) (found : list string)
| EvSendEmail (subject body : string) (err : option error)
| EvInsertOne (permalink : string) (err : option error)
| EvSleep
| EvExit (code : Z).

(** [docs] and [uniqueIndex] are the collection in MongoDB: they belong
    to the database and outlive the process.  [tick] counts the
    questions put to the environment so far. *)
Record World : Type := mkWorld {
  tick : nat;
  docs : list Doc;
  uniqueIndex : bool }.

(** ** A monad for the program's effects

    A computation takes the world it starts in and yields its result, the
    world it leaves and the events it caused, oldest first. *)

Definition M (A : Type) : Type := World -> A * World * list Event.

Definition ret {A : Type} (a : A) : M A := fun w => (a, w, []).

Definition bind {A B : Type} (m : M A) (k : A -> M B) : M B :=
  fun w =>
    let '(a, w1, t1) := m w in
    let '(b, w2, t2) := k a w1 in
    (b, w2, t1 ++ t2).

Notation "'let*' x ':=' m 'in' k" := (bind m (fun x => k))
  (at level 10, x pattern, m at level 100, k at level 200).

Definition valueOf {A : Type} (r : A * World * list Event) : A := fst (fst r).
Definition worldOf {A : Type} (r : A * World * list Event) : World := snd (fst r).
Definition traceOf {A : Type} (r : A * World * list Event) : list Event := snd r.

Definition emit (ev : Event) : M unit := fun w => (tt, w, [ev]).

Definition fmt_Println (l : Line) : M unit := emit (EvPrint l).

(** One question to the environment. *)
Definition ask {A : Type} (f : nat -> A) : M A :=
  fun w => (f (tick w), mkWorld (S (tick w)) (docs w) (uniqueIndex w), []).

(** ** MongoDB *)

Definition hasDoc (id : string) (ds : list Doc) : bool :=
  existsb (fun d => String.eqb (permalink d) id) ds.

(** [FindOne(ctx, {permalink: id}).Decode(&result)]: nil when a document
    is found, [ErrNoDocuments] when there is none, another error when
    the query fails. *)
Definition mongo_FindOne (e : Env) (id : string) : M (option error) :=
  fun w =>
    let err :=
      if mongoFindFails e (tick w) then Some (ErrOther "find")
      else if hasDoc id (docs w) then None
      else Some ErrNoDocuments in
    (err, mkWorld (S (tick w)) (docs w) (uniqueIndex w), [EvFindOne id err]).

(** [InsertOne(ctx, {permalink: id, processed_at: time.Now()})]: refused
    with a duplicate-key error when the unique index is in place and a
    document with this permalink exists. *)
Definition mongo_InsertOne (e : Env) (id : string) : M (option error) :=
  fun w =>
    if mongoInsertFails e (tick w) then
      (Some (ErrOther "insert"),
       mkWorld (S (tick w)) (docs w) (uniqueIndex w),
       [EvInsertOne id (Some (ErrOther "insert"))])
    else if uniqueIndex w && hasDoc id (docs w) then
      (Some ErrDuplicateKey,
       mkWorld (S (tick w)) (docs w) (uniqueIndex w),
       [EvInsertOne id (Some ErrDuplicateKey)])
    else
      (None,
       mkWorld (S (tick w)) (docs w ++ [mkDoc id (time_Now e (tick w))])
         (uniqueIndex w),
       [EvInsertOne id None]).

(** [setupMongoIndex]: a unique index on [permalink].  (The nil test on
    the collection handle is left out: [main] assigns the handle before
    it starts this function.) *)
Definition setupMongoIndex (e : Env) : M unit :=
  fun w =>
    if mongoIndexFails e (tick w) then
      (tt, mkWorld (S (tick w)) (docs w) (uniqueIndex w), [EvPrint LIndexWarn])
    else
      (tt, mkWorld (S (tick w)) (docs w) true, [EvPrint LIndexEnsured]).

(** ** sendEmail *)

Definition sendEmail (e : Env) (subject body : string) : M (option error) :=
  let* failed := ask (smtpFails e) in
  if (failed : bool) then
    let err := Some (ErrOther "failed to send email") in
    let* _ := emit (EvSendEmail subject body err) in
    ret err
  else
    let* _ := emit (EvSendEmail subject body None) in
    let* _ := fmt_Println (LEmailSent (recipientEmail e)) in
    ret None.

(** ** fetchPosts and fetchComments *)

Definition http_StatusOK : Z := 200.

(** [fetchPosts]; the loop copies [child.Data] of every child, in order. *)
Definition fetchPosts (e : Env) (endpoint : string) : M (list Post * option error) :=
  if url_refused e endpoint then
    ret ([], Some (ErrOther "error creating request"))
  else
    let* _ := emit (EvHttpGet endpoint userAgent) in
    let* outcome := ask (fun t => httpPosts e t endpoint) in
    match outcome with
    | DoError => ret ([], Some (ErrOther "error executing request"))
    | HttpResponse statusCode decoded =>
        if negb (Z.eqb statusCode http_StatusOK) then
          ret ([], Some (ErrOther "unexpected status code"))
        else
          match decoded with
          | None => ret ([], Some (ErrOther "error decoding JSON response"))
          | Some response =>
              let posts :=
                fold_left (fun posts child => posts ++ [Child_Data child])
                  (Children (Data response)) [] in
              ret (posts, None)
          end
    end.

(** [fetchComments]. *)
Definition fetchComments (e : Env) (endpoint : string)
    : M (list Comment * option error) :=
  if url_refused e endpoint then
    ret ([], Some (ErrOther "error creating request"))
  else
    let* _ := emit (EvHttpGet endpoint userAgent) in
    let* outcome := ask (fun t => httpComments e t endpoint) in
    match outcome with
    | DoError => ret ([], Some (ErrOther "error executing request"))
    | HttpResponse statusCode decoded =>
        if negb (Z.eqb statusCode http_StatusOK) then
          ret ([], Some (ErrOther "unexpected status code"))
        else
          match decoded with
          | None => ret ([], Some (ErrOther "error decoding JSON response"))
          | Some response =>
              let comments :=
                fold_left (fun comments child => comments ++ [Child_Data child])
                  (Children (Data response)) [] in
              ret (comments, None)
          end
    end.

(** ** processPosts and processComments *)

Definition LF : string := String (ascii_of_N 10) "".

(** [%v] of a slice of strings. *)
Definition fmt_v (l : list string) : string := "[" +:+ strings_Join l " " +:+ "]".

(** The subject and the body of an alert, as the two loops format them. *)
Definition alertSubject (k : Kind) (subreddit : string) : string :=
  match k with
  | KPost => "Reddit Keyword Alert: Post in r/" +:+ subreddit
  | KComment => "Reddit Keyword Alert: Comment in r/" +:+ subreddit
  end.

Definition alertBody (k : Kind) (found : list string) (id : string) : string :=
  match k with
  | KPost =>
      "Keywords " +:+ fmt_v found +:+ " found in post:" +:+ LF
      +:+ "https://www.reddit.com" +:+ id
  | KComment =>
      "Keywords " +:+ fmt_v found +:+ " found in comment:" +:+ LF
      +:+ "https://www.reddit.com" +:+ id
  end.

(** The call of [findKeywords], with what it prints. *)
Definition runFindKeywords (text : string) : M (list string) :=
  fun w =>
    let '(found, out) := findKeywords_run text keywords in
    (found, w, EvFindKeywords text found :: map EvPrint out).

(** The block [Mark as processed (MongoDB Insert)] of both loops: the
    insert and the handling of its error.  A duplicate-key error is
    reported as information, any other as an error; neither stops the
    loop. *)
Definition markProcessed (e : Env) (k : Kind) (id : string) : M unit :=
  let* insertErr := mongo_InsertOne e id in
  match insertErr with
  | None => ret tt
  | Some ierr =>
      if mongo_IsDuplicateKeyError ierr
      then fmt_Println (LInfoDuplicate id)
      else fmt_Println (LErrInserting k id)
  end.

(** The body of the loop of [processPosts]; a [continue] ends it. *)
Definition processPosts_body (e : Env) (post : Post) : M unit :=
  let* err := mongo_FindOne e (Post_Permalink post) in
  match err with
  | None => ret tt                       (* found: already processed *)
  | Some ErrNoDocuments =>
      let text := Post_Title post +:+ " " +:+ Post_Selftext post in
      let* found := runFindKeywords text in
      if (0 <? List.length found)%nat then
        let* _ := fmt_Println (LFoundKeywords KPost found (Post_Subreddit post)
                                 (Post_Permalink post)) in
        let subject := "Reddit Keyword Alert: Post in r/" +:+ Post_Subreddit post in
        let body := "Keywords " +:+ fmt_v found +:+ " found in post:" +:+ LF
                    +:+ "https://www.reddit.com" +:+ Post_Permalink post in
        let* err := sendEmail e subject body in
        match err with
        | Some _ => fmt_Println (LErrSendingEmail KPost)
        | None => markProcessed e KPost (Post_Permalink post)
        end
      else ret tt
  | Some _ =>                            (* skip this post on DB error *)
      fmt_Println (LErrCheckingMongo KPost (Post_Permalink post))
  end.

Fixpoint processPosts (e : Env) (posts : list Post) : M unit :=
  match posts with
  | [] => ret tt
  | post :: rest => let* _ := processPosts_body e post in processPosts e rest
  end.

(** The body of the loop of [processComments]. *)
Definition processComments_body (e : Env) (comment : Comment) : M unit :=
  let* err := mongo_FindOne e (Comment_Permalink comment) in
  match err with
  | None => ret tt                       (* already processed *)
  | Some ErrNoDocuments =>
      let* found := runFindKeywords (Comment_Body comment) in
      if (0 <? List.length found)%nat then
        let* _ := fmt_Println (LFoundKeywords KComment found
                                 (Comment_Subreddit comment)
                                 (Comment_Permalink comment)) in
        let subject :=
          "Reddit Keyword Alert: Comment in r/" +:+ Comment_Subreddit comment in
        let body := "Keywords " +:+ fmt_v found +:+ " found in comment:" +:+ LF
                    +:+ "https://www.reddit.com" +:+ Comment_Permalink comment in
        let* err := sendEmail e subject body in
        match err with
        | Some _ => fmt_Println (LErrSendingEmail KComment)
        | None => markProcessed e KComment (Comment_Permalink comment)
        end
      else ret tt
  | Some _ =>                            (* skip on DB error *)
      fmt_Println (LErrCheckingMongo KComment (Comment_Permalink comment))
  end.

Fixpoint processComments (e : Env) (comments : list Comment) : M unit :=
  match comments with
  | [] => ret tt
  | comment :: rest =>
      let* _ := processComments_body e comment in processComments e rest
  end.

(** ** main *)

Definition os_Exit (code : Z) : M (option Z) :=
  let* _ := emit (EvExit code) in ret (Some code).

(** [main] up to the loop: [Some code] when the process exits.
    [go setupMongoIndex()] starts the function in the background; here
    it runs to its end at once, which is one of its schedules.  The
    loop is shown below to be [indexBlind], so the others differ only in
    where its question to the environment and the line it prints fall. *)
Definition startup (e : Env) : M (option Z) :=
  let* _ := fmt_Println LStarting in
  if String.eqb (gmailUser e) "" || String.eqb (gmailAppPassword e) ""
     || String.eqb (recipientEmail e) "" then
    let* _ := fmt_Println LFatalEmailEnv in os_Exit 1
  else if String.eqb (mongoURI e) "" then
    let* _ := fmt_Println LFatalMongoURI in os_Exit 1
  else
    let* connectFailed := ask (mongoConnectFails e) in
    if (connectFailed : bool) then
      let* _ := fmt_Println LFatalConnect in os_Exit 1
    else
      let* pingFailed := ask (mongoPingFails e) in
      if (pingFailed : bool) then
        let* _ := fmt_Println LFatalPing in os_Exit 1
      else
        let* _ := fmt_Println LConnected in
        let* _ := setupMongoIndex e in
        let* _ := fmt_Println LConfiguration in
        ret None.

(** One iteration of the loop of [main]. *)
Definition cycle (e : Env) : M unit :=
  let* _ := fmt_Println LFetching in
  let* fetchedPosts := fetchPosts e postEndpoint in
  let* _ :=
    match fetchedPosts with
    | (_, Some _) => fmt_Println (LErrFetching KPost)
    | (posts, None) => processPosts e posts
    end in
  let* fetchedComments := fetchComments e commentEndpoint in
  let* _ :=
    match fetchedComments with
    | (_, Some _) => fmt_Println (LErrFetching KComment)
    | (comments, None) => processComments e comments
    end in
  emit EvSleep.

(** The first [n] iterations of [for { ... }]. *)
Fixpoint mainLoop (e : Env) (n : nat) : M unit :=
  match n with
  | O => ret tt
  | S n' => let* _ := cycle e in mainLoop e n'
  end.

(** A process that is started and runs [n] iterations of the loop. *)
Definition main (e : Env) (n : nat) : M (option Z) :=
  let* exited := startup e in
  match exited with
  | Some code => ret (Some code)
  | None => let* _ := mainLoop e n in ret None
  end.

(** Successive processes against the same database: each is started,
    runs the given number of iterations and is stopped. *)
Fixpoint restarts (e : Env) (runs : list nat) : M unit :=
  match runs with
  | [] => ret tt
  | n :: rest => let* _ := main e n in restarts e rest
  end.

(** ** Notions used to state the properties *)

(** The literal [s] as a sequence of instructions. *)
Fixpoint runes (foldCase : bool) (s : string) : Regexp :=
  match s with
  | EmptyString => []
  | String c s' => Rune foldCase c :: runes foldCase s'
  end.

(** What the pattern of a keyword compiles to. *)
Definition keywordRegexp (keyword : string) : Regexp :=
  EmptyWordBoundary :: runes true keyword ++ [EmptyWordBoundary].


(** The test the loop of [findKeywords] applies to one keyword. *)
Definition patternMatches (textLower keyword : string) : bool :=
  match regexp_Compile (keywordPattern keyword) with
  | Compiled re => MatchString re textLower
  | CompileError _ | NotModelled => false
  end.

Definition keywordMatches (text keyword : string) : bool :=
  patternMatches (strings_ToLower text) keyword.

(** The keyword is skipped: its pattern does not compile. *)
Definition patternRefused (keyword : string) : bool :=
  match regexp_Compile (keywordPattern keyword) with
  | Compiled _ => false
  | CompileError _ | NotModelled => true
  end.






(** The common shape of the two loop bodies. *)
Definition processItem (e : Env) (k : Kind) (text subreddit id : string)
    : M unit :=
  let* err := mongo_FindOne e id in
  match err with
  | None => ret tt
  | Some ErrNoDocuments =>
      let* found := runFindKeywords text in
      if (0 <? List.length found)%nat then
        let* _ := fmt_Println (LFoundKeywords k found subreddit id) in
        let* err := sendEmail e (alertSubject k subreddit) (alertBody k found id) in
        match err with
        | Some _ => fmt_Println (LErrSendingEmail k)
        | None => markProcessed e k id
        end
      else ret tt
  | Some _ => fmt_Println (LErrCheckingMongo k id)
  end.

(** The two halves of an iteration of the loop of [main]. *)
Definition postsPhase (e : Env) : M unit :=
  let* fetched := fetchPosts e postEndpoint in
  match fetched with
  | (_, Some _) => fmt_Println (LErrFetching KPost)
  | (posts, None) => processPosts e posts
  end.

Definition commentsPhase (e : Env) : M unit :=
  let* fetched := fetchComments e commentEndpoint in
  match fetched with
  | (_, Some _) => fmt_Println (LErrFetching KComment)
  | (comments, None) => processComments e comments
  end.

(** Kinds of events. *)
Definition isMatcherRun (ev : Event) : Prop :=
  exists text found, ev = EvFindKeywords text found.

Definition isNotifierCall (ev : Event) : Prop :=
  exists subject body err, ev = EvSendEmail subject body err.

Definition isRecordCall (ev : Event) : Prop :=
  exists id err, ev = EvInsertOne id err.

(** An alert for the item [id], as the two loops format it. *)
Definition isAlertFor (id : string) (ev : Event) : Prop :=
  exists (k : Kind) (found : list string) (subject : string) (err : option error),
    sublist found keywords /\
    ev = EvSendEmail subject (alertBody k found id) err.

(** An alert for [id] was sent and [sendEmail] returned no error. *)
Definition delivered (id : string) (tr : list Event) : Prop :=
  exists (k : Kind) (found : list string) (subject : string),
    sublist found keywords /\
    In (EvSendEmail subject (alertBody k found id) None) tr.

(** The successful record of [id]. *)
Definition recordOf (id : string) : Event := EvInsertOne id None.



(** What [fetchPosts] and [fetchComments] promise, given whether the
    request could be built and what the round trip came to. *)
Definition transportFails {R : Type} (refused : bool) (outcome : HttpOutcome R)
    : Prop :=
  refused = true \/ outcome = DoError.

Definition statusNotOK {R : Type} (outcome : HttpOutcome R) : Prop :=
  exists statusCode decoded,
    outcome = HttpResponse statusCode decoded /\ statusCode <> http_StatusOK.

Definition payloadMalformed {R : Type} (outcome : HttpOutcome R) : Prop :=
  exists statusCode, outcome = HttpResponse statusCode None.

Definition fetchContract {A : Type} (refused : bool)
    (outcome : HttpOutcome (Response A)) (r : list A * option error) : Prop :=
  (snd r <> None <->
     transportFails refused outcome \/ statusNotOK outcome
     \/ payloadMalformed outcome) /\
  (snd r <> None -> fst r = []) /\
  (snd r = None ->
     exists response,
       outcome = HttpResponse http_StatusOK (Some response) /\
       fst r = map Child_Data (Children (Data response))).

(** Iterations of the loop of [main] that ran to their end. *)
Definition isSleep (ev : Event) : bool :=
  match ev with
  | EvSleep => true
  | _ => false
  end.

Definition completedCycles (tr : list Event) : nat :=
  List.length (List.filter isSleep tr).

Definition isExit (ev : Event) : bool :=
  match ev with
  | EvExit _ => true
  | _ => false
  end.

(** An event of the loop bodies and of the fetches: neither the sleep
    that ends an iteration nor an exit of the process. *)
Definition isWork (ev : Event) : bool := negb (isSleep ev) && negb (isExit ev).

(** The fixed part of the body of an alert. *)
Definition alertPrefix (k : Kind) (found : list string) : string :=
  match k with
  | KPost =>
      "Keywords " +:+ fmt_v found +:+ " found in post:" +:+ LF
      +:+ "https://www.reddit.com"
  | KComment =>
      "Keywords " +:+ fmt_v found +:+ " found in comment:" +:+ LF
      +:+ "https://www.reddit.com"
  end.

(** Events that neither call [sendEmail] nor record an identifier. *)
Definition quiet (ev : Event) : bool :=
  match ev with
  | EvSendEmail _ _ _ => false
  | EvInsertOne _ None => false
  | _ => true
  end.

(** The identifiers recorded so far, given those recorded before [tr]. *)
Definition seenAfter (seen : list string) (tr : list Event) : list string :=
  fold_left (fun seen ev =>
               match ev with
               | EvInsertOne id None => id :: seen
               | _ => seen
               end) tr seen.

(** No event of [tr] is an alert for an identifier recorded before it,
    be it one of [seen] or one recorded earlier in [tr]. *)
Fixpoint noRealert (seen : list string) (tr : list Event) : Prop :=
  match tr with
  | [] => True
  | ev :: tr' =>
      (forall id, In id seen -> ~ isAlertFor id ev) /\
      noRealert (seenAfter seen [ev]) tr'
  end.

(** Every identifier of [seen] is in the collection. *)
Definition covers (seen : list string) (w : World) : Prop :=
  forall id, In id seen -> hasDoc id (docs w) = true.

(** The history [tr] and the world [w] it led to agree: what was
    recorded is in the collection, and nothing recorded was alerted
    again. *)
Definition recordedOnce (tr : list Event) (w : World) : Prop :=
  noRealert [] tr /\ covers (seenAfter [] tr) w.

(** Every identifier in the collection has had an alert delivered. *)
Definition storeWithinDelivered (tr : list Event) (w : World) : Prop :=
  forall id, hasDoc id (docs w) = true -> delivered id tr.

(** The claim that the collection holds exactly the delivered
    identifiers. *)
Definition storeIffDelivered (tr : list Event) (w : World) : Prop :=
  forall id, hasDoc id (docs w) = true <-> delivered id tr.

(** The computation [m] keeps the invariant [I] of history and world. *)
Definition keeps {A : Type} (I : list Event -> World -> Prop) (m : M A) : Prop :=
  forall (tr : list Event) (w : World),
    I tr w -> I (tr ++ traceOf (m w)) (worldOf (m w)).

(** What one run [r] of a loop body from the world [w] does about
    recording the item [id]:
    - an insert is attempted only for [id] and only after [sendEmail]
      returned nil for an alert about [id];
    - without such a return the collection is left as it was;
    - a successful insert puts [id] in the collection;
    - no other identifier enters or leaves the collection. *)
Definition recordsAfterDelivery (k : Kind) (id : string) (w : World)
    (r : unit * World * list Event) : Prop :=
  (forall id' err,
      In (EvInsertOne id' err) (traceOf r) ->
      id' = id /\
      exists before after subject found,
        sublist found keywords /\
        traceOf r
        = before ++ EvSendEmail subject (alertBody k found id) None :: after /\
        In (EvInsertOne id' err) after) /\
  ((forall subject body, ~ In (EvSendEmail subject body None) (traceOf r)) ->
     docs (worldOf r) = docs w) /\
  (In (recordOf id) (traceOf r) -> hasDoc id (docs (worldOf r)) = true) /\
  (forall id', id' <> id -> hasDoc id' (docs (worldOf r)) = hasDoc id' (docs w)).

(** [id] is in the collection and no event of [tr] is an alert for it. *)
Definition knownAndSilent (id : string) (tr : list Event) (w : World) : Prop :=
  hasDoc id (docs w) = true /\ forall ev, In ev tr -> ~ isAlertFor id ev.

(** The collection of [w] extends the documents [ds], and repeats no
    permalink if [ds] repeats none. *)
Definition growsFrom (ds : list Doc) (tr : list Event) (w : World) : Prop :=
  (exists added, docs w = ds ++ added) /\
  (List.NoDup (map permalink ds) -> List.NoDup (map permalink (docs w))).

Definition isSend (ev : Event) : bool :=
  match ev with
  | EvSendEmail _ _ _ => true
  | _ => false
  end.

Definition isInsert (ev : Event) : bool :=
  match ev with
  | EvInsertOne _ _ => true
  | _ => false
  end.

Definition isHttpGet (ev : Event) : bool :=
  match ev with
  | EvHttpGet _ _ => true
  | _ => false
  end.

Definition count (P : Event -> bool) (tr : list Event) : nat :=
  List.length (List.filter P tr).

(** The configuration [main] checks before it connects. *)
Definition configComplete (e : Env) : bool :=
  negb (String.eqb (gmailUser e) "" || String.eqb (gmailAppPassword e) ""
        || String.eqb (recipientEmail e) "")
  && negb (String.eqb (mongoURI e) "").





(** The world after [n] more questions to the environment. *)
Definition tickWorld (n : nat) (w : World) : World :=
  mkWorld (n + tick w) (docs w) (uniqueIndex w).

(** ** Sample inputs

    The post of the end-to-end scenario of the specification and a few
    environments, used to instantiate the statements below. *)

Definition samplePost : Post :=
  mkPost "Hiring a VA" "" "/r/test/1" 0%float "test".

Definition sampleComment : Comment :=
  mkComment "any leads?" "/r/test/1/c1" 0%float "test".

Definition emptyWorld : World := mkWorld 0 [] true.

(** An environment in which the configuration is set, both listings
    hold the sample items, and the calls to SMTP and MongoDB fail when
    the given tests say so. *)
Definition sampleEnv (find smtp insert : nat -> bool) : Env :=
  mkEnv (fun _ => "set") (fun _ => false)
    (fun _ _ => HttpResponse 200 (Some (mkResponse (mkListing [mkChild samplePost]))))
    (fun _ _ => HttpResponse 200 (Some (mkResponse (mkListing [mkChild sampleComment]))))
    smtp (fun _ => false) (fun _ => false) (fun _ => false) find insert
    (fun t => N.of_nat t).

Definition never : nat -> bool := fun _ => false.
Definition always : nat -> bool := fun _ => true.

Definition calmEnv : Env := sampleEnv never never never.

(** An environment whose post listing is empty and whose comment
    listing cannot be fetched. *)
Definition emptyListingEnv : Env :=
  mkEnv (fun _ => "set") (fun _ => false)
    (fun _ _ => HttpResponse 200 (Some (mkResponse (mkListing []))))
    (fun _ _ => DoError) never never never never never never
    (fun t => N.of_nat t).

(** ** The JSON-file variant

    The older program keeps the processed permalinks in a package-level
    map and rewrites a JSON file in full after every call that recorded
    something.  [fetchPosts], [fetchComments], [sendEmail] and
    [findKeywords] are word for word those of the MongoDB program and
    are reused. *)

Module FileStore.

(** What the file at [PROCESSED_IDS_PATH] holds: nothing (no such
    file), bytes that are not JSON (an empty or torn file:
    [json.Unmarshal] checks the syntax first and leaves the map
    alone), or the JSON object of a map from permalinks to booleans.
    A file of well-formed JSON of another shape is not modelled. *)
Inductive FileContent : Type :=
| NoFile
| Garbage
| JsonMap (m : gmap string bool).

(** What [os.WriteFile] can come to: the file is replaced; it cannot
    be opened and stays as it was; it is truncated and the write
    fails. *)
Inductive WriteOutcome : Type :=
| WriteOK
| WriteRefused
| WriteTorn.

Record FileEnv : Type := mkFileEnv {
  base : Env;
  readFails : nat -> bool;              (* a read error other than not-exist *)
  writeOutcome : nat -> WriteOutcome }.

Inductive FileLine : Type :=
| LWarnPathUnset
| LConfigurationFile
| LNotFoundStartingFresh
| LLoaded (n : nat)
| LErrLoading
| LErrInitialSave
| LErrSaving (k : Kind).

Inductive FileEvent : Type :=
| Base (ev : Event)
| EvReadFile (filename : string) (err : option error)
| EvWriteFile (filename : string) (m : gmap string bool) (outcome : WriteOutcome)
| EvPrintFile (l : FileLine).

(** [file] outlives the process; [processedIDs] and
    [processedIDsFile] are its package-level variables. *)
Record FileWorld : Type := mkFileWorld {
  ftick : nat;
  file : FileContent;
  processedIDs : gmap string bool;
  processedIDsFile : string }.

Definition FM (A : Type) : Type := FileWorld -> A * FileWorld * list FileEvent.

Definition fret {A : Type} (a : A) : FM A := fun w => (a, w, []).

Definition fbind {A B : Type} (m : FM A) (k : A -> FM B) : FM B :=
  fun w =>
    let '(a, w1, t1) := m w in
    let '(b, w2, t2) := k a w1 in
    (b, w2, t1 ++ t2).

Notation "'let+' x ':=' m 'in' k" := (fbind m (fun x => k))
  (at level 10, x pattern, m at level 100, k at level 200).

Definition fvalue {A : Type} (r : A * FileWorld * list FileEvent) : A :=
  fst (fst r).
Definition fworld {A : Type} (r : A * FileWorld * list FileEvent) : FileWorld :=
  snd (fst r).
Definition ftrace {A : Type} (r : A * FileWorld * list FileEvent)
    : list FileEvent :=
  snd r.

Definition femit (ev : FileEvent) : FM unit := fun w => (tt, w, [ev]).

Definition println (l : Line) : FM unit := femit (Base (EvPrint l)).
Definition printlnFile (l : FileLine) : FM unit := femit (EvPrintFile l).

(** The shared functions, run in this world: they only ask the
    environment and cause events. *)
Definition lift {A : Type} (m : M A) : FM A :=
  fun w =>
    let '(a, w', t) := m (mkWorld (ftick w) [] false) in
    (a, mkFileWorld (tick w') (file w) (processedIDs w) (processedIDsFile w),
     map Base t).

Definition setProcessedIDs (m : gmap string bool) : FM unit :=
  fun w => (tt, mkFileWorld (ftick w) (file w) m (processedIDsFile w), []).

Definition getProcessedIDs : FM (gmap string bool) :=
  fun w => (processedIDs w, w, []).

(** [loadProcessedIDs].  [json.Unmarshal] into the existing map sets
    the keys of the object and keeps the others. *)
Definition loadProcessedIDs (e : FileEnv) (filename : string) : FM (option error) :=
  fun w =>
    match file w with
    | NoFile =>
        (* os.IsNotExist: first run *)
        (None,
         mkFileWorld (S (ftick w)) (file w) ∅ (processedIDsFile w),
         [EvReadFile filename (Some (ErrOther "not exist"));
          EvPrintFile LNotFoundStartingFresh])
    | content =>
        if readFails e (ftick w) then
          (Some (ErrOther "error reading processed IDs file"),
           mkFileWorld (S (ftick w)) (file w) (processedIDs w) (processedIDsFile w),
           [EvReadFile filename (Some (ErrOther "read"))])
        else
          match content with
          | JsonMap m =>
              let loaded := m ∪ processedIDs w in
              (None,
               mkFileWorld (S (ftick w)) (file w) loaded (processedIDsFile w),
               [EvReadFile filename None; EvPrintFile (LLoaded (size loaded))])
          | _ =>
              (Some (ErrOther "error unmarshalling processed IDs"),
               mkFileWorld (S (ftick w)) (file w) (processedIDs w)
                 (processedIDsFile w),
               [EvReadFile filename None])
          end
    end.

(** [saveProcessedIDs]: the whole map, marshalled, replaces the file. *)
Definition saveProcessedIDs (e : FileEnv) (filename : string) : FM (option error) :=
  fun w =>
    let outcome := writeOutcome e (ftick w) in
    let ev := EvWriteFile filename (processedIDs w) outcome in
    match outcome with
    | WriteOK =>
        (None,
         mkFileWorld (S (ftick w)) (JsonMap (processedIDs w)) (processedIDs w)
           (processedIDsFile w),
         [ev])
    | WriteRefused =>
        (Some (ErrOther "error writing processed IDs file"),
         mkFileWorld (S (ftick w)) (file w) (processedIDs w) (processedIDsFile w),
         [ev])
    | WriteTorn =>
        (Some (ErrOther "error writing processed IDs file"),
         mkFileWorld (S (ftick w)) Garbage (processedIDs w) (processedIDsFile w),
         [ev])
    end.

Definition runFindKeywords (text : string) : FM (list string) :=
  fun w =>
    let '(found, out) := findKeywords_run text keywords in
    (found, w, Base (EvFindKeywords text found) :: map (fun l => Base (EvPrint l)) out).

(** The body of the loop of [processPosts]; it returns the new value
    of [newMatchesFound]. *)
Definition processPosts_body (e : FileEnv) (post : Post) (newMatchesFound : bool)
    : FM bool :=
  let+ ids := getProcessedIDs in
  match ids !! Post_Permalink post with
  | Some _ => fret newMatchesFound            (* already processed *)
  | None =>
      let text := Post_Title post +:+ " " +:+ Post_Selftext post in
      let+ found := runFindKeywords text in
      if (0 <? List.length found)%nat then
        let+ _ := println (LFoundKeywords KPost found (Post_Subreddit post)
                             (Post_Permalink post)) in
        let subject := "Reddit Keyword Alert: Post in r/" +:+ Post_Subreddit post in
        let body := "Keywords " +:+ fmt_v found +:+ " found in post:" +:+ LF
                    +:+ "https://www.reddit.com" +:+ Post_Permalink post in
        let+ err := lift (sendEmail (base e) subject body) in
        match err with
        | Some _ =>
            let+ _ := println (LErrSendingEmail KPost) in fret newMatchesFound
        | None =>
            let+ _ := setProcessedIDs (<[Post_Permalink post := true]> ids) in
            fret true
        end
      else fret newMatchesFound
  end.

Fixpoint processPosts_loop (e : FileEnv) (posts : list Post)
    (newMatchesFound : bool) : FM bool :=
  match posts with
  | [] => fret newMatchesFound
  | post :: rest =>
      let+ newMatchesFound := processPosts_body e post newMatchesFound in
      processPosts_loop e rest newMatchesFound
  end.

Definition processPosts (e : FileEnv) (posts : list Post) : FM unit :=
  let+ newMatchesFound := processPosts_loop e posts false in
  if (newMatchesFound : bool) then
    let+ filename := (fun w => (processedIDsFile w, w, [])) in
    let+ err := saveProcessedIDs e filename in
    match err with
    | Some _ => printlnFile (LErrSaving KPost)
    | None => fret tt
    end
  else fret tt.

Definition processComments_body (e : FileEnv) (comment : Comment)
    (newMatchesFound : bool) : FM bool :=
  let+ ids := getProcessedIDs in
  match ids !! Comment_Permalink comment with
  | Some _ => fret newMatchesFound
  | None =>
      let+ found := runFindKeywords (Comment_Body comment) in
      if (0 <? List.length found)%nat then
        let+ _ := println (LFoundKeywords KComment found
                             (Comment_Subreddit comment)
                             (Comment_Permalink comment)) in
        let subject :=
          "Reddit Keyword Alert: Comment in r/" +:+ Comment_Subreddit comment in
        let body := "Keywords " +:+ fmt_v found +:+ " found in comment:" +:+ LF
                    +:+ "https://www.reddit.com" +:+ Comment_Permalink comment in
        let+ err := lift (sendEmail (base e) subject body) in
        match err with
        | Some _ =>
            let+ _ := println (LErrSendingEmail KComment) in fret newMatchesFound
        | None =>
            let+ _ := setProcessedIDs (<[Comment_Permalink comment := true]> ids) in
            fret true
        end
      else fret newMatchesFound
  end.

Fixpoint processComments_loop (e : FileEnv) (comments : list Comment)
    (newMatchesFound : bool) : FM bool :=
  match comments with
  | [] => fret newMatchesFound
  | comment :: rest =>
      let+ newMatchesFound := processComments_body e comment newMatchesFound in
      processComments_loop e rest newMatchesFound
  end.

Definition processComments (e : FileEnv) (comments : list Comment) : FM unit :=
  let+ newMatchesFound := processComments_loop e comments false in
  if (newMatchesFound : bool) then
    let+ filename := (fun w => (processedIDsFile w, w, [])) in
    let+ err := saveProcessedIDs e filename in
    match err with
    | Some _ => printlnFile (LErrSaving KComment)
    | None => fret tt
    end
  else fret tt.

(** A process starts with the initial values of its package-level
    variables: an empty map and the path read from the environment.
    The file is whatever the previous processes left. *)
Definition boot (e : FileEnv) (w : FileWorld) : FileWorld :=
  mkFileWorld (ftick w) (file w) ∅ (os_Getenv (base e) "PROCESSED_IDS_PATH").

(** [main] up to the loop: [Some code] when the process exits. *)
Definition startup (e : FileEnv) : FM (option Z) :=
  let+ _ := println LStarting in
  if String.eqb (gmailUser (base e)) "" || String.eqb (gmailAppPassword (base e)) ""
     || String.eqb (recipientEmail (base e)) "" then
    let+ _ := println LFatalEmailEnv in
    let+ _ := femit (Base (EvExit 1)) in
    fret (Some 1%Z)
  else
    let+ _ :=
      (fun w =>
         if String.eqb (processedIDsFile w) "" then
           (tt, mkFileWorld (ftick w) (file w) (processedIDs w) "processed_ids.json",
            [EvPrintFile LWarnPathUnset])
         else (tt, w, [])) in
    let+ _ := printlnFile LConfigurationFile in
    let+ filename := (fun w => (processedIDsFile w, w, [])) in
    let+ err := loadProcessedIDs e filename in
    let+ _ :=
      match err with
      | Some _ =>
          let+ _ := printlnFile LErrLoading in setProcessedIDs ∅
      | None => fret tt
      end in
    let+ err := saveProcessedIDs e filename in
    let+ _ :=
      match err with
      | Some _ => printlnFile LErrInitialSave
      | None => fret tt
      end in
    fret None.

(** One iteration of the loop of [main]. *)
Definition cycle (e : FileEnv) : FM unit :=
  let+ _ := println LFetching in
  let+ fetchedPosts := lift (fetchPosts (base e) postEndpoint) in
  let+ _ :=
    match fetchedPosts with
    | (_, Some _) => println (LErrFetching KPost)
    | (posts, None) => processPosts e posts
    end in
  let+ fetchedComments := lift (fetchComments (base e) commentEndpoint) in
  let+ _ :=
    match fetchedComments with
    | (_, Some _) => println (LErrFetching KComment)
    | (comments, None) => processComments e comments
    end in
  femit (Base EvSleep).

Fixpoint mainLoop (e : FileEnv) (n : nat) : FM unit :=
  match n with
  | O => fret tt
  | S n' => let+ _ := cycle e in mainLoop e n'
  end.

(** A process that is started and runs [n] iterations of the loop. *)
Definition main (e : FileEnv) (n : nat) : FM (option Z) :=
  fun w =>
    (let+ exited := startup e in
     match exited with
     | Some code => fret (Some code)
     | None => let+ _ := mainLoop e n in fret None
     end) (boot e w).

(** An alert for [id] was sent and [sendEmail] returned nil. *)
Definition delivered (id : string) (tr : list FileEvent) : Prop :=
  exists (k : Kind) (found : list string) (subject : string),
    sublist found keywords /\
    In (Base (EvSendEmail subject (alertBody k found id) None)) tr.



Definition isSendAny (ev : FileEvent) : bool :=
  match ev with
  | Base (EvSendEmail _ _ _) => true
  | _ => false
  end.

(** The common shape of the two loop bodies. *)
Definition processItem (e : FileEnv) (k : Kind) (text subreddit id : string)
    (newMatchesFound : bool) : FM bool :=
  let+ ids := getProcessedIDs in
  match ids !! id with
  | Some _ => fret newMatchesFound
  | None =>
      let+ found := runFindKeywords text in
      if (0 <? List.length found)%nat then
        let+ _ := println (LFoundKeywords k found subreddit id) in
        let+ err := lift (sendEmail (base e) (alertSubject k subreddit)
                            (alertBody k found id)) in
        match err with
        | Some _ =>
            let+ _ := println (LErrSendingEmail k) in fret newMatchesFound
        | None =>
            let+ _ := setProcessedIDs (<[id := true]> ids) in
            fret true
        end
      else fret newMatchesFound
  end.

(** An alert for the item [id]. *)
Definition isAlertFor (id : string) (ev : FileEvent) : Prop :=
  exists (k : Kind) (found : list string) (subject : string) (err : option error),
    sublist found keywords /\
    ev = Base (EvSendEmail subject (alertBody k found id) err).

(** Events other than calls of [sendEmail]. *)
Definition quiet (ev : FileEvent) : bool := negb (isSendAny ev).

(** The computation [m] keeps the invariant [I] of history and world. *)
Definition keeps {A : Type} (I : list FileEvent -> FileWorld -> Prop) (m : FM A)
    : Prop :=
  forall (tr : list FileEvent) (w : FileWorld),
    I tr w -> I (tr ++ ftrace (m w)) (fworld (m w)).


(** [id] is in the map and no event of [tr] is an alert for it. *)
Definition knownAndSilent (id : string) (tr : list FileEvent) (w : FileWorld)
    : Prop :=
  is_Some (processedIDs w !! id) /\ forall ev, In ev tr -> ~ isAlertFor id ev.

(** Steps that send nothing and leave the map alone. *)
Definition still {A : Type} (m : FM A) : Prop :=
  forall w : FileWorld,
    forallb quiet (ftrace (m w)) = true /\ processedIDs (fworld (m w)) = processedIDs w.

(** The map extends [m0]. *)
Definition growsFrom (m0 : gmap string bool) (tr : list FileEvent) (w : FileWorld)
    : Prop :=
  m0 ⊆ processedIDs w.

(** The configuration [main] checks before it reads the file. *)
Definition emailConfigured (e : FileEnv) : bool :=
  negb (String.eqb (gmailUser (base e)) "" || String.eqb (gmailAppPassword (base e)) ""
        || String.eqb (recipientEmail (base e)) "").

(** The file was read and parsed at the start of the process. *)
Definition fileLoads (e : FileEnv) (w : FileWorld) (m : gmap string bool) : Prop :=
  file w = JsonMap m /\ readFails e (ftick w) = false.

(** The file is there and cannot be used: reading it fails, or what it
    holds is not JSON. *)
Definition fileUnusable (e : FileEnv) (w : FileWorld) : Prop :=
  file w = Garbage \/ (exists m, file w = JsonMap m /\ readFails e (ftick w) = true).




(** A sample environment: the shared one, with a disk that works. *)
Definition calmFileEnv : FileEnv :=
  mkFileEnv calmEnv (fun _ => false) (fun _ => WriteOK).


(** A disk left by a process that alerted for the sample post, and a
    disk with a torn file. *)
Definition savedWorld : FileWorld :=
  mkFileWorld 0 (JsonMap {[ "/r/test/1" := true ]}) ∅ "".

Definition tornWorld : FileWorld := mkFileWorld 0 Garbage ∅ "".


End FileStore.

(** ** The first listing

    The tutorial text in the repository carries the first version of
    the program.  Its matcher looks for the lower-cased keyword
    anywhere in the lower-cased text. *)

Module Tutorial.

(** [strings.HasPrefix]. *)
Fixpoint strings_HasPrefix (s prefix : string) : bool :=
  match prefix, s with
  | EmptyString, _ => true
  | String p prefix', String c s' => Ascii.eqb c p && strings_HasPrefix s' prefix'
  | String _ _, EmptyString => false
  end.

(** [strings.Contains]: [substr] starts at some position of [s]. *)
Fixpoint strings_Contains (s substr : string) : bool :=
  strings_HasPrefix s substr
  || match s with
     | EmptyString => false
     | String _ s' => strings_Contains s' substr
     end.

(** The loop of [findKeywords]; [found] is the slice built so far. *)
Fixpoint findKeywords_loop (textLower : string) (keywords : list string)
    (found : list string) : list string :=
  match keywords with
  | [] => found
  | keyword :: rest =>
      if strings_Contains textLower (strings_ToLower keyword)
      then findKeywords_loop textLower rest (found ++ [keyword])
      else findKeywords_loop textLower rest found
  end.

Definition findKeywords (text : string) (keywords : list string) : list string :=
  let textLower := strings_ToLower text in
  findKeywords_loop textLower keywords [].


End Tutorial.

(** * Properties *)

(** ** Bytes and strings *)

Ltac each_byte c :=
  destruct c as [[] [] [] [] [] [] [] []].

Lemma special_escapable (c : ascii) :
  special c = true ->
  (byteval c <? 128) = true /\ isalnum c = false /\ (byteval c =? 98) = false.
Proof. each_byte c; vm_compute; intros H; try discriminate H; auto. Qed.

Lemma not_special_literal (c : ascii) :
  special c = false -> (byteval c =? 92) = false /\ isOperator c = false.
Proof. each_byte c; vm_compute; intros H; try discriminate H; auto. Qed.

Lemma utf8_step_ascii (st : Utf8State) (c : ascii) :
  (byteval c <? 128) = true ->
  utf8_step st c = match st with U_Start => Some U_Start | _ => None end.
Proof.
  destruct st; each_byte c; vm_compute; intros H;
    try discriminate H; reflexivity.
Qed.




Lemma append_assoc (a b c : string) : (a +:+ b) +:+ c = a +:+ (b +:+ c).
Proof. induction a as [|x a IH]; simpl; [reflexivity | now rewrite IH]. Qed.






(** ** UTF-8 validity of the pattern of a keyword *)

Lemma utf8_run_not_start (st : Utf8State) (c : ascii) (s : string) :
  (byteval c <? 128) = true -> st <> U_Start -> utf8_run st (String c s) = false.
Proof.
  intros Hc Hst. simpl. rewrite (utf8_step_ascii st c Hc).
  destruct st; congruence.
Qed.

Lemma utf8_run_QuoteMeta (st : Utf8State) (s : string) :
  utf8_run st (regexp_QuoteMeta s) = utf8_run st s.
Proof.
  revert st; induction s as [|c s IH]; intros st; [reflexivity|].
  simpl. destruct (special c) eqn:Hsp; [|simpl; destruct (utf8_step st c); auto].
  destruct (special_escapable c Hsp) as (Hc & _ & _).
  simpl. rewrite (utf8_step_ascii st c Hc).
  rewrite (utf8_step_ascii st backslash eq_refl).
  destruct st; try reflexivity.
  rewrite (utf8_step_ascii U_Start c Hc). apply IH.
Qed.

Lemma utf8_run_app_word_boundary (st : Utf8State) (s : string) :
  utf8_run st (s +:+ "\b") = utf8_run st s.
Proof.
  revert st; induction s as [|c s IH]; intros st.
  - destruct st; reflexivity.
  - simpl. destruct (utf8_step st c); auto.
Qed.

Lemma utf8_ValidString_keywordPattern (keyword : string) :
  utf8_ValidString (keywordPattern keyword) = utf8_ValidString keyword.
Proof.
  unfold utf8_ValidString, keywordPattern. simpl.
  rewrite utf8_run_app_word_boundary. apply utf8_run_QuoteMeta.
Qed.

(** ** Parsing the pattern of a keyword *)

Lemma parseSeq_QuoteMeta (foldCase : bool) (keyword : string) :
  parseSeq foldCase (regexp_QuoteMeta keyword +:+ "\b")
  = Compiled (runes foldCase keyword ++ [EmptyWordBoundary]).
Proof.
  induction keyword as [|c s IH]; [reflexivity|].
  cbn [regexp_QuoteMeta]. destruct (special c) eqn:Hsp.
  - destruct (special_escapable c Hsp) as (Hc & Han & Hb).
    cbn [String.append parseSeq]. change (byteval backslash =? 92) with true.
    cbv iota. rewrite Hb, Hc, Han. cbn [negb andb]. rewrite IH. reflexivity.
  - destruct (not_special_literal c Hsp) as (Hbs & Hop).
    cbn [String.append parseSeq]. rewrite Hbs, Hop, IH. reflexivity.
Qed.

(** The pattern built for a keyword always stays inside the modelled
    fragment: it compiles to [keywordRegexp] when the keyword is valid
    UTF-8 and is refused otherwise. *)
Lemma QuotedPattern_compiles (keyword : string) :
  regexp_Compile (keywordPattern keyword)
  = if utf8_ValidString keyword then Compiled (keywordRegexp keyword)
    else CompileError ErrInvalidUTF8.
Proof.
  unfold regexp_Compile. rewrite utf8_ValidString_keywordPattern.
  destruct (utf8_ValidString keyword); [|reflexivity].
  cbn [negb]. unfold keywordPattern.
  change (stripFlags ("(?i)\b" +:+ regexp_QuoteMeta keyword +:+ "\b"))
    with (true, "\b" +:+ regexp_QuoteMeta keyword +:+ "\b").
  cbv iota beta.
  change (parseSeq true ("\b" +:+ regexp_QuoteMeta keyword +:+ "\b"))
    with (consInst EmptyWordBoundary
            (parseSeq true (regexp_QuoteMeta keyword +:+ "\b"))).
  rewrite parseSeq_QuoteMeta. reflexivity.
Qed.

(** ** What a match of the compiled pattern means *)















Lemma patternRefused_spec (keyword : string) :
  patternRefused keyword = negb (utf8_ValidString keyword).
Proof.
  unfold patternRefused. rewrite QuotedPattern_compiles.
  destruct (utf8_ValidString keyword); reflexivity.
Qed.

(** ** findKeywords as a filter *)

Lemma findKeywords_loop_spec (textLower : string) (keywords found : list string)
    (out : list Line) :
  findKeywords_loop textLower keywords found out
  = (found ++ List.filter (patternMatches textLower) keywords,
     out ++ map LErrCompilingRegex (List.filter patternRefused keywords)).
Proof.
  revert found out; induction keywords as [|k ks IH]; intros found out.
  - simpl. now rewrite !app_nil_r.
  - cbn [findKeywords_loop List.filter]. unfold patternMatches at 1, patternRefused at 1.
    destruct (regexp_Compile (keywordPattern k)) as [re | code |].
    + destruct (MatchString re textLower); rewrite IH; [|reflexivity].
      now rewrite <- app_assoc.
    + rewrite IH. cbn [map]. now rewrite <- app_assoc.
    + rewrite IH. cbn [map]. now rewrite <- app_assoc.
Qed.

Lemma findKeywords_filter (text : string) (keywords : list string) :
  findKeywords text keywords = List.filter (keywordMatches text) keywords.
Proof.
  unfold findKeywords, findKeywords_run. rewrite findKeywords_loop_spec.
  reflexivity.
Qed.

Lemma findKeywords_output_spec (text : string) (keywords : list string) :
  findKeywords_output text keywords
  = map LErrCompilingRegex (List.filter patternRefused keywords).
Proof.
  unfold findKeywords_output, findKeywords_run. rewrite findKeywords_loop_spec.
  reflexivity.
Qed.


Lemma filter_sublist {A : Type} (f : A -> bool) (l : list A) :
  sublist (List.filter f l) l.
Proof.
  induction l as [|x l IH]; simpl; [constructor|].
  destruct (f x); now constructor.
Qed.

(** ** Whole-word matching *)








(** ** Subsequence, casing, duplicates *)








(** ** Nothing matches; a keyword whose pattern is refused *)




(** ** Running the loop bodies *)

Lemma processPosts_body_item (e : Env) (post : Post) :
  processPosts_body e post
  = processItem e KPost (Post_Title post +:+ " " +:+ Post_Selftext post)
      (Post_Subreddit post) (Post_Permalink post).
Proof. reflexivity. Qed.

Lemma processComments_body_item (e : Env) (comment : Comment) :
  processComments_body e comment
  = processItem e KComment (Comment_Body comment) (Comment_Subreddit comment)
      (Comment_Permalink comment).
Proof. reflexivity. Qed.

(** The loop body, branch by branch. *)
Lemma processItem_run (e : Env) (k : Kind) (text subreddit id : string) (w : World) :
  processItem e k text subreddit id w =
  if mongoFindFails e (tick w) then
    (tt, tickWorld 1 w,
     [EvFindOne id (Some (ErrOther "find")); EvPrint (LErrCheckingMongo k id)])
  else if hasDoc id (docs w) then
    (tt, tickWorld 1 w, [EvFindOne id None])
  else
    let found := findKeywords text keywords in
    let looked :=
      EvFindOne id (Some ErrNoDocuments) :: EvFindKeywords text found
      :: map EvPrint (findKeywords_output text keywords) in
    if (0 <? List.length found)%nat then
      let subject := alertSubject k subreddit in
      let body := alertBody k found id in
      if smtpFails e (S (tick w)) then
        (tt, tickWorld 2 w,
         looked ++ [EvPrint (LFoundKeywords k found subreddit id);
                    EvSendEmail subject body (Some (ErrOther "failed to send email"));
                    EvPrint (LErrSendingEmail k)])
      else if mongoInsertFails e (S (S (tick w))) then
        (tt, tickWorld 3 w,
         looked ++ [EvPrint (LFoundKeywords k found subreddit id);
                    EvSendEmail subject body None;
                    EvPrint (LEmailSent (recipientEmail e));
                    EvInsertOne id (Some (ErrOther "insert"));
                    EvPrint (LErrInserting k id)])
      else
        (tt,
         mkWorld (3 + tick w)
           (docs w ++ [mkDoc id (time_Now e (S (S (tick w))))]) (uniqueIndex w),
         looked ++ [EvPrint (LFoundKeywords k found subreddit id);
                    EvSendEmail subject body None;
                    EvPrint (LEmailSent (recipientEmail e));
                    EvInsertOne id None])
    else (tt, tickWorld 1 w, looked).
Proof.
  unfold processItem, bind, mongo_FindOne, tickWorld.
  destruct (mongoFindFails e (tick w)) eqn:Hf; [reflexivity|].
  destruct (hasDoc id (docs w)) eqn:Hd; [reflexivity|].
  unfold runFindKeywords, findKeywords, findKeywords_output.
  destruct (findKeywords_run text keywords) as [found out]. cbn [fst snd].
  destruct (0 <? List.length found)%nat eqn:Hlen;
    [|unfold ret; cbn; now rewrite app_nil_r].
  unfold sendEmail, markProcessed, mongo_InsertOne, fmt_Println, emit, ask, bind, ret.
  cbn [tick docs uniqueIndex].
  destruct (smtpFails e (S (tick w))); [reflexivity|].
  cbn [tick docs uniqueIndex].
  destruct (mongoInsertFails e (S (S (tick w)))); [reflexivity|].
  rewrite Hd, andb_false_r. reflexivity.
Qed.

(** ** A failed lookup *)

Lemma mongo_FindOne_error (e : Env) (id : string) (w : World) (err : error) :
  valueOf (mongo_FindOne e id w) = Some err -> err <> ErrNoDocuments ->
  mongoFindFails e (tick w) = true /\ err = ErrOther "find".
Proof.
  unfold mongo_FindOne, valueOf. cbn [fst].
  destruct (mongoFindFails e (tick w)).
  - intros [= <-] _. auto.
  - destruct (hasDoc id (docs w)); [discriminate|]. intros [= <-] H. now destruct H.
Qed.

Lemma processItem_store_error (e : Env) (k : Kind) (text subreddit id : string)
    (w : World) (err : error) :
  valueOf (mongo_FindOne e id w) = Some err -> err <> ErrNoDocuments ->
  processItem e k text subreddit id w
  = (tt, tickWorld 1 w, [EvFindOne id (Some err); EvPrint (LErrCheckingMongo k id)]).
Proof.
  intros Hv Hne. destruct (mongo_FindOne_error e id w err Hv Hne) as [Hf ->].
  rewrite processItem_run, Hf. reflexivity.
Qed.

(** C4.  When the lookup of an item in the collection returns an error
    other than [ErrNoDocuments], the loop body does nothing for the item
    but print the error: [findKeywords] is not run, [sendEmail] is not
    called, nothing is inserted and the collection is unchanged; the
    loop goes on with the next item.  This holds for posts and for
    comments. *)
Theorem store_error_skips_item (e : Env) (w : World) (err : error) :
  err <> ErrNoDocuments ->
  (forall (post : Post) (rest : list Post),
      valueOf (mongo_FindOne e (Post_Permalink post) w) = Some err ->
      let r := processPosts_body e post w in
      traceOf r = [EvFindOne (Post_Permalink post) (Some err);
                   EvPrint (LErrCheckingMongo KPost (Post_Permalink post))] /\
      docs (worldOf r) = docs w /\
      (forall ev, In ev (traceOf r) ->
                  ~ isMatcherRun ev /\ ~ isNotifierCall ev /\ ~ isRecordCall ev) /\
      traceOf (processPosts e (post :: rest) w)
      = traceOf r ++ traceOf (processPosts e rest (worldOf r))) /\
  (forall (comment : Comment) (rest : list Comment),
      valueOf (mongo_FindOne e (Comment_Permalink comment) w) = Some err ->
      let r := processComments_body e comment w in
      traceOf r = [EvFindOne (Comment_Permalink comment) (Some err);
                   EvPrint (LErrCheckingMongo KComment (Comment_Permalink comment))] /\
      docs (worldOf r) = docs w /\
      (forall ev, In ev (traceOf r) ->
                  ~ isMatcherRun ev /\ ~ isNotifierCall ev /\ ~ isRecordCall ev) /\
      traceOf (processComments e (comment :: rest) w)
      = traceOf r ++ traceOf (processComments e rest (worldOf r))).
Proof.
  intros Hne. split.
  - intros post rest Hv r. subst r.
    cbn [processPosts]. unfold bind at 1.
    rewrite processPosts_body_item.
    rewrite (processItem_store_error e KPost _ _ _ w err Hv Hne).
    split; [reflexivity|]. split; [reflexivity|]. split.
    + intros ev [<- | [<- | []]]; (split; [|split]);
        intros H; unfold isMatcherRun, isNotifierCall, isRecordCall in H;
        decompose record H; discriminate.
    + cbn [worldOf traceOf fst snd].
      destruct (processPosts e rest (tickWorld 1 w)) as [[u w2] t2]. reflexivity.
  - intros comment rest Hv r. subst r.
    cbn [processComments]. unfold bind at 1.
    rewrite processComments_body_item.
    rewrite (processItem_store_error e KComment _ _ _ w err Hv Hne).
    split; [reflexivity|]. split; [reflexivity|]. split.
    + intros ev [<- | [<- | []]]; (split; [|split]);
        intros H; unfold isMatcherRun, isNotifierCall, isRecordCall in H;
        decompose record H; discriminate.
    + cbn [worldOf traceOf fst snd].
      destruct (processComments e rest (tickWorld 1 w)) as [[u w2] t2]. reflexivity.
Qed.

Lemma store_error_skips_item_witness :
  traceOf (processPosts_body (sampleEnv always never never) samplePost emptyWorld)
  = [EvFindOne "/r/test/1" (Some (ErrOther "find"));
     EvPrint (LErrCheckingMongo KPost "/r/test/1")].
Proof.
  assert (Hne : ErrOther "find" <> ErrNoDocuments) by discriminate.
  exact (proj1 (proj1 (store_error_skips_item (sampleEnv always never never)
                         emptyWorld (ErrOther "find") Hne)
                  samplePost [] eq_refl)).
Defined.

(** ** The record step *)

Lemma hasDoc_app (id : string) (ds ds' : list Doc) :
  hasDoc id (ds ++ ds') = hasDoc id ds || hasDoc id ds'.
Proof. unfold hasDoc. apply existsb_app. Qed.

Lemma hasDoc_single (id id' : string) (t : N) :
  hasDoc id' [mkDoc id t] = String.eqb id id'.
Proof. unfold hasDoc. simpl. now rewrite orb_false_r. Qed.

Lemma markProcessed_run (e : Env) (k : Kind) (id : string) (w : World) :
  markProcessed e k id w =
  if mongoInsertFails e (tick w) then
    (tt, tickWorld 1 w,
     [EvInsertOne id (Some (ErrOther "insert")); EvPrint (LErrInserting k id)])
  else if uniqueIndex w && hasDoc id (docs w) then
    (tt, tickWorld 1 w,
     [EvInsertOne id (Some ErrDuplicateKey); EvPrint (LInfoDuplicate id)])
  else
    (tt, mkWorld (1 + tick w) (docs w ++ [mkDoc id (time_Now e (tick w))])
           (uniqueIndex w),
     [EvInsertOne id None]).
Proof.
  unfold markProcessed, bind, mongo_InsertOne, tickWorld.
  destruct (mongoInsertFails e (tick w)); [reflexivity|].
  destruct (uniqueIndex w && hasDoc id (docs w)); reflexivity.
Qed.

(** C5.  Recording an identifier that is already in the collection is
    not reported as an error, and the collection answers every lookup as
    before; with the unique index in place the duplicate insert is
    refused by the database, reported as information, and the
    collection is unchanged.  Hence recording twice leaves the
    collection answering as after recording once. *)
Theorem record_idempotent (e : Env) (k : Kind) (id : string) (w : World) :
  mongoInsertFails e (tick w) = false ->
  let once := markProcessed e k id w in
  (hasDoc id (docs w) = true ->
     (forall k', ~ In (EvPrint (LErrInserting k' id)) (traceOf once)) /\
     (forall id', hasDoc id' (docs (worldOf once)) = hasDoc id' (docs w)) /\
     (uniqueIndex w = true ->
        docs (worldOf once) = docs w /\
        traceOf once = [EvInsertOne id (Some ErrDuplicateKey);
                        EvPrint (LInfoDuplicate id)])) /\
  (mongoInsertFails e (tick (worldOf once)) = false ->
     let twice := markProcessed e k id (worldOf once) in
     hasDoc id (docs (worldOf once)) = true /\
     (forall k', ~ In (EvPrint (LErrInserting k' id)) (traceOf twice)) /\
     (forall id', hasDoc id' (docs (worldOf twice)) = hasDoc id' (docs (worldOf once))) /\
     (uniqueIndex w = true -> docs (worldOf twice) = docs (worldOf once))).
Proof.
  intros Hok once.
  assert (Hpresent : forall w0 : World,
    mongoInsertFails e (tick w0) = false -> hasDoc id (docs w0) = true ->
    (forall k', ~ In (EvPrint (LErrInserting k' id)) (traceOf (markProcessed e k id w0))) /\
    (forall id', hasDoc id' (docs (worldOf (markProcessed e k id w0)))
                 = hasDoc id' (docs w0)) /\
    (uniqueIndex w0 = true ->
       docs (worldOf (markProcessed e k id w0)) = docs w0 /\
       traceOf (markProcessed e k id w0)
       = [EvInsertOne id (Some ErrDuplicateKey); EvPrint (LInfoDuplicate id)])).
  { intros w0 Hok0 Hin. rewrite markProcessed_run, Hok0, Hin, andb_true_r.
    destruct (uniqueIndex w0); cbn [worldOf traceOf fst snd tickWorld docs].
    - split; [|split; [reflexivity | auto]].
      intros k' [H | [H | []]]; discriminate H.
    - split; [|split; [|discriminate]].
      + intros k' [H | []]; discriminate H.
      + intros id'. rewrite hasDoc_app, hasDoc_single.
        destruct (String.eqb_spec id id') as [<- | Hne];
          [now rewrite Hin | apply orb_false_r]. }
  split; [exact (Hpresent w Hok)|].
  intros Hok2 twice.
  assert (Hin1 : hasDoc id (docs (worldOf once)) = true).
  { subst once. rewrite markProcessed_run, Hok.
    destruct (uniqueIndex w && hasDoc id (docs w)) eqn:Hdup;
      cbn [worldOf fst snd tickWorld docs].
    - now apply andb_true_iff in Hdup.
    - rewrite hasDoc_app, hasDoc_single, String.eqb_refl. apply orb_true_r. }
  destruct (Hpresent (worldOf once) Hok2 Hin1) as (Hnoerr & Hsame & Huniq).
  split; [exact Hin1|]. split; [exact Hnoerr|]. split; [exact Hsame|].
  intros Hu. apply Huniq. subst once. rewrite markProcessed_run, Hok.
  destruct (uniqueIndex w && hasDoc id (docs w)); exact Hu.
Qed.

Lemma record_idempotent_witness :
  docs (worldOf (markProcessed calmEnv KPost "/r/test/1"
                   (worldOf (markProcessed calmEnv KPost "/r/test/1" emptyWorld))))
  = docs (worldOf (markProcessed calmEnv KPost "/r/test/1" emptyWorld)).
Proof.
  exact (proj2 (proj2 (proj2
    (proj2 (record_idempotent calmEnv KPost "/r/test/1" emptyWorld eq_refl)
       eq_refl))) eq_refl).
Defined.

(** ** Fetching *)

Lemma collect_children {A : Type} (children : list (Child A)) (items : list A) :
  fold_left (fun items child => items ++ [Child_Data child]) children items
  = items ++ map Child_Data children.
Proof.
  revert items; induction children as [|c cs IH]; intros items.
  - simpl. now rewrite app_nil_r.
  - simpl. rewrite IH, <- app_assoc. reflexivity.
Qed.

Lemma fetchContract_cases {A : Type} (refused : bool)
    (outcome : HttpOutcome (Response A)) :
  fetchContract refused outcome
    (if refused then ([], Some (ErrOther "error creating request"))
     else match outcome with
          | DoError => ([], Some (ErrOther "error executing request"))
          | HttpResponse statusCode decoded =>
              if negb (Z.eqb statusCode http_StatusOK)
              then ([], Some (ErrOther "unexpected status code"))
              else match decoded with
                   | None => ([], Some (ErrOther "error decoding JSON response"))
                   | Some response =>
                       (map Child_Data (Children (Data response)), None)
                   end
          end).
Proof.
  unfold fetchContract, transportFails, statusNotOK, payloadMalformed.
  destruct refused.
  { cbn [fst snd]. split; [|split]; [split; auto; discriminate | reflexivity | discriminate]. }
  destruct outcome as [|st decoded].
  { cbn [fst snd]. split; [|split]; [split; auto; discriminate | reflexivity | discriminate]. }
  destruct (Z.eqb_spec st http_StatusOK) as [-> | Hst]; cbn [negb].
  - destruct decoded as [response|]; cbn [fst snd].
    + split; [|split].
      * split; [intros H; now destruct H|].
        intros [[H | H] | [(st & d & [= <- <-] & H) | (st & [= <- ])]];
          try discriminate H. now destruct H.
      * intros H; now destruct H.
      * intros _. exists response. auto.
    + split; [|split]; [split; [|discriminate] | reflexivity | discriminate].
      intros _. right. right. now exists http_StatusOK.
  - cbn [fst snd]. split; [|split]; [split; [|discriminate] | reflexivity | discriminate].
    intros _. right. left. now exists st, decoded.
Qed.

Lemma fetchPosts_value (e : Env) (endpoint : string) (w : World) :
  valueOf (fetchPosts e endpoint w)
  = if url_refused e endpoint then ([], Some (ErrOther "error creating request"))
    else match httpPosts e (tick w) endpoint with
         | DoError => ([], Some (ErrOther "error executing request"))
         | HttpResponse statusCode decoded =>
             if negb (Z.eqb statusCode http_StatusOK)
             then ([], Some (ErrOther "unexpected status code"))
             else match decoded with
                  | None => ([], Some (ErrOther "error decoding JSON response"))
                  | Some response =>
                      (map Child_Data (Children (Data response)), None)
                  end
         end.
Proof.
  unfold fetchPosts. destruct (url_refused e endpoint); [reflexivity|].
  unfold bind, emit, ask, ret, valueOf. cbn [tick].
  destruct (httpPosts e (tick w) endpoint) as [|st decoded]; [reflexivity|].
  destruct (negb (Z.eqb st http_StatusOK)); [reflexivity|].
  destruct decoded as [response|]; [|reflexivity].
  cbn [fst]. now rewrite collect_children.
Qed.

Lemma fetchComments_value (e : Env) (endpoint : string) (w : World) :
  valueOf (fetchComments e endpoint w)
  = if url_refused e endpoint then ([], Some (ErrOther "error creating request"))
    else match httpComments e (tick w) endpoint with
         | DoError => ([], Some (ErrOther "error executing request"))
         | HttpResponse statusCode decoded =>
             if negb (Z.eqb statusCode http_StatusOK)
             then ([], Some (ErrOther "unexpected status code"))
             else match decoded with
                  | None => ([], Some (ErrOther "error decoding JSON response"))
                  | Some response =>
                      (map Child_Data (Children (Data response)), None)
                  end
         end.
Proof.
  unfold fetchComments. destruct (url_refused e endpoint); [reflexivity|].
  unfold bind, emit, ask, ret, valueOf. cbn [tick].
  destruct (httpComments e (tick w) endpoint) as [|st decoded]; [reflexivity|].
  destruct (negb (Z.eqb st http_StatusOK)); [reflexivity|].
  destruct decoded as [response|]; [|reflexivity].
  cbn [fst]. now rewrite collect_children.
Qed.

(** C9.  [fetchPosts] returns an error, and then no items, exactly when
    the request cannot be made (it cannot be built from the endpoint, or
    the round trip fails), the status of the response is not 200 OK, or
    the body cannot be decoded; otherwise it returns the [data] of the
    children of the listing in their order, which is the empty sequence
    for an empty listing.  [fetchComments] does the same. *)
Theorem fetch_error_exactly (e : Env) (endpoint : string) (w : World) :
  fetchContract (url_refused e endpoint) (httpPosts e (tick w) endpoint)
    (valueOf (fetchPosts e endpoint w)) /\
  fetchContract (url_refused e endpoint) (httpComments e (tick w) endpoint)
    (valueOf (fetchComments e endpoint w)) /\
  (url_refused e endpoint = false ->
   httpPosts e (tick w) endpoint
   = HttpResponse http_StatusOK (Some (mkResponse (mkListing []))) ->
   valueOf (fetchPosts e endpoint w) = ([], None)).
Proof.
  split; [|split].
  - rewrite fetchPosts_value. apply fetchContract_cases.
  - rewrite fetchComments_value. apply fetchContract_cases.
  - intros Hu Ho. rewrite fetchPosts_value, Hu, Ho. reflexivity.
Qed.

Lemma fetch_error_exactly_witness :
  valueOf (fetchPosts emptyListingEnv postEndpoint emptyWorld) = ([], None).
Proof.
  exact (proj2 (proj2 (fetch_error_exactly emptyListingEnv postEndpoint emptyWorld))
           eq_refl eq_refl).
Defined.

(** ** The loop of main *)

Lemma bind_run {A B : Type} (m : M A) (k : A -> M B) (w : World) :
  bind m k w
  = (valueOf (k (valueOf (m w)) (worldOf (m w))),
     worldOf (k (valueOf (m w)) (worldOf (m w))),
     traceOf (m w) ++ traceOf (k (valueOf (m w)) (worldOf (m w)))).
Proof.
  unfold bind, valueOf, worldOf, traceOf.
  destruct (m w) as [[a w1] t1]. cbn [fst snd].
  destruct (k a w1) as [[b w2] t2]. reflexivity.
Qed.

Lemma bind_trace {A B : Type} (m : M A) (k : A -> M B) (w : World) :
  traceOf (bind m k w)
  = traceOf (m w) ++ traceOf (k (valueOf (m w)) (worldOf (m w))).
Proof. now rewrite bind_run. Qed.

Lemma bind_world {A B : Type} (m : M A) (k : A -> M B) (w : World) :
  worldOf (bind m k w) = worldOf (k (valueOf (m w)) (worldOf (m w))).
Proof. now rewrite bind_run. Qed.


Lemma unit_run_eta (r : unit * World * list Event) :
  r = (tt, worldOf r, traceOf r).
Proof. now destruct r as [[[] w] t]. Qed.

Lemma fetchPosts_effect (e : Env) (endpoint : string) (w : World) :
  worldOf (fetchPosts e endpoint w)
  = (if url_refused e endpoint then w else tickWorld 1 w) /\
  traceOf (fetchPosts e endpoint w)
  = (if url_refused e endpoint then [] else [EvHttpGet endpoint userAgent]).
Proof.
  unfold fetchPosts. destruct (url_refused e endpoint); [split; reflexivity|].
  unfold bind, emit, ask, ret, worldOf, traceOf, tickWorld. cbn [tick docs uniqueIndex].
  destruct (httpPosts e (tick w) endpoint) as [|st decoded]; [split; reflexivity|].
  destruct (negb (Z.eqb st http_StatusOK)); [split; reflexivity|].
  destruct decoded; split; reflexivity.
Qed.

Lemma fetchComments_effect (e : Env) (endpoint : string) (w : World) :
  worldOf (fetchComments e endpoint w)
  = (if url_refused e endpoint then w else tickWorld 1 w) /\
  traceOf (fetchComments e endpoint w)
  = (if url_refused e endpoint then [] else [EvHttpGet endpoint userAgent]).
Proof.
  unfold fetchComments. destruct (url_refused e endpoint); [split; reflexivity|].
  unfold bind, emit, ask, ret, worldOf, traceOf, tickWorld. cbn [tick docs uniqueIndex].
  destruct (httpComments e (tick w) endpoint) as [|st decoded]; [split; reflexivity|].
  destruct (negb (Z.eqb st http_StatusOK)); [split; reflexivity|].
  destruct decoded; split; reflexivity.
Qed.

Lemma fetchPosts_docs (e : Env) (endpoint : string) (w : World) :
  docs (worldOf (fetchPosts e endpoint w)) = docs w.
Proof.
  rewrite (proj1 (fetchPosts_effect e endpoint w)).
  now destruct (url_refused e endpoint).
Qed.

Lemma fetchComments_docs (e : Env) (endpoint : string) (w : World) :
  docs (worldOf (fetchComments e endpoint w)) = docs w.
Proof.
  rewrite (proj1 (fetchComments_effect e endpoint w)).
  now destruct (url_refused e endpoint).
Qed.

(** Case analysis on the next computation whose result is inspected. *)
Ltac run_next :=
  match goal with
  | |- context [match ?x with pair _ _ => _ end] =>
      lazymatch x with
      | pair _ _ => fail
      | context [match _ with pair _ _ => _ end] => fail
      | context [match _ with Some _ => _ | None => _ end] => fail
      | _ => destruct x
      end
  | |- context [match ?x with Some _ => _ | None => _ end] =>
      lazymatch x with
      | context [match _ with pair _ _ => _ end] => fail
      | context [match _ with Some _ => _ | None => _ end] => fail
      | _ => destruct x
      end
  end; cbv beta iota.

Ltac run_all := cbv beta iota; repeat run_next.

Lemma cycle_phases (e : Env) (w : World) :
  cycle e w
  = (let* _ := fmt_Println LFetching in
     let* _ := postsPhase e in
     let* _ := commentsPhase e in
     emit EvSleep) w.
Proof.
  unfold cycle, postsPhase, commentsPhase, bind, fmt_Println, emit.
  run_all; rewrite <- ?app_assoc; reflexivity.
Qed.

Lemma cycle_run (e : Env) (w : World) :
  cycle e w
  = (tt, worldOf (commentsPhase e (worldOf (postsPhase e w))),
     EvPrint LFetching
     :: traceOf (postsPhase e w)
        ++ traceOf (commentsPhase e (worldOf (postsPhase e w))) ++ [EvSleep]).
Proof.
  rewrite cycle_phases, (unit_run_eta (bind _ _ w)).
  rewrite !bind_world, !bind_trace.
  cbn [fmt_Println emit valueOf worldOf traceOf fst snd app].
  reflexivity.
Qed.

Lemma postsPhase_run (e : Env) (w : World) :
  let f := fetchPosts e postEndpoint w in
  postsPhase e w
  = match snd (valueOf f) with
    | Some _ => (tt, worldOf f, traceOf f ++ [EvPrint (LErrFetching KPost)])
    | None =>
        (tt, worldOf (processPosts e (fst (valueOf f)) (worldOf f)),
         traceOf f ++ traceOf (processPosts e (fst (valueOf f)) (worldOf f)))
    end.
Proof.
  unfold postsPhase, bind, fmt_Println, emit, valueOf, worldOf, traceOf.
  destruct (fetchPosts e postEndpoint w) as [[[posts [err|]] w1] t1];
    cbn [fst snd]; [reflexivity|].
  destruct (processPosts e posts w1) as [[[] w2] t2]. reflexivity.
Qed.

Lemma commentsPhase_run (e : Env) (w : World) :
  let f := fetchComments e commentEndpoint w in
  commentsPhase e w
  = match snd (valueOf f) with
    | Some _ => (tt, worldOf f, traceOf f ++ [EvPrint (LErrFetching KComment)])
    | None =>
        (tt, worldOf (processComments e (fst (valueOf f)) (worldOf f)),
         traceOf f ++ traceOf (processComments e (fst (valueOf f)) (worldOf f)))
    end.
Proof.
  unfold commentsPhase, bind, fmt_Println, emit, valueOf, worldOf, traceOf.
  destruct (fetchComments e commentEndpoint w) as [[[comments [err|]] w1] t1];
    cbn [fst snd]; [reflexivity|].
  destruct (processComments e comments w1) as [[[] w2] t2]. reflexivity.
Qed.

Lemma forallb_map_print (P : Event -> bool) (out : list Line) :
  (forall l, P (EvPrint l) = true) -> forallb P (map EvPrint out) = true.
Proof.
  intros H. induction out as [|l out IH]; [reflexivity|].
  simpl. now rewrite H, IH.
Qed.

Lemma processItem_work (e : Env) (k : Kind) (text subreddit id : string) (w : World) :
  forallb isWork (traceOf (processItem e k text subreddit id w)) = true.
Proof.
  rewrite processItem_run.
  assert (Hout : forall out, forallb isWork (map EvPrint out) = true)
    by (intros out; now apply forallb_map_print).
  destruct (mongoFindFails e (tick w)); [reflexivity|].
  destruct (hasDoc id (docs w)); [reflexivity|].
  cbv zeta. destruct (0 <? List.length _)%nat.
  - destruct (smtpFails e (S (tick w)));
      [|destruct (mongoInsertFails e (S (S (tick w))))];
      cbn [traceOf snd]; rewrite forallb_app; cbn [forallb isWork isSleep isExit negb andb];
      now rewrite Hout.
  - cbn [traceOf snd forallb isWork isSleep isExit negb andb]. apply Hout.
Qed.

Lemma processPosts_work (e : Env) (posts : list Post) (w : World) :
  forallb isWork (traceOf (processPosts e posts w)) = true.
Proof.
  revert w; induction posts as [|post rest IH]; intros w; [reflexivity|].
  cbn [processPosts]. rewrite bind_trace, forallb_app, IH, andb_true_r.
  rewrite processPosts_body_item. apply processItem_work.
Qed.

Lemma processComments_work (e : Env) (comments : list Comment) (w : World) :
  forallb isWork (traceOf (processComments e comments w)) = true.
Proof.
  revert w; induction comments as [|comment rest IH]; intros w; [reflexivity|].
  cbn [processComments]. rewrite bind_trace, forallb_app, IH, andb_true_r.
  rewrite processComments_body_item. apply processItem_work.
Qed.

Lemma postsPhase_work (e : Env) (w : World) :
  forallb isWork (traceOf (postsPhase e w)) = true.
Proof.
  rewrite postsPhase_run. cbv zeta.
  destruct (fetchPosts_effect e postEndpoint w) as [_ Ht].
  destruct (snd (valueOf (fetchPosts e postEndpoint w)));
    cbn [traceOf snd]; rewrite forallb_app.
  - fold (traceOf (fetchPosts e postEndpoint w)). rewrite Ht.
    now destruct (url_refused e postEndpoint).
  - fold (traceOf (fetchPosts e postEndpoint w)). rewrite Ht.
    rewrite processPosts_work. now destruct (url_refused e postEndpoint).
Qed.

Lemma commentsPhase_work (e : Env) (w : World) :
  forallb isWork (traceOf (commentsPhase e w)) = true.
Proof.
  rewrite commentsPhase_run. cbv zeta.
  destruct (fetchComments_effect e commentEndpoint w) as [_ Ht].
  destruct (snd (valueOf (fetchComments e commentEndpoint w)));
    cbn [traceOf snd]; rewrite forallb_app.
  - fold (traceOf (fetchComments e commentEndpoint w)). rewrite Ht.
    now destruct (url_refused e commentEndpoint).
  - fold (traceOf (fetchComments e commentEndpoint w)). rewrite Ht.
    rewrite processComments_work. now destruct (url_refused e commentEndpoint).
Qed.

Lemma completedCycles_app (a b : list Event) :
  completedCycles (a ++ b) = (completedCycles a + completedCycles b)%nat.
Proof. unfold completedCycles. now rewrite List.filter_app, length_app. Qed.

Lemma work_no_cycle (tr : list Event) :
  forallb isWork tr = true ->
  completedCycles tr = 0%nat /\ existsb isExit tr = false.
Proof.
  unfold completedCycles. induction tr as [|ev tr IH]; [auto|].
  cbn [forallb]. intros H. apply andb_true_iff in H as [Hev H].
  destruct (IH H) as [IH1 IH2]. unfold isWork in Hev.
  apply andb_true_iff in Hev as [Hs Hx].
  cbn [List.filter existsb]. apply negb_true_iff in Hs, Hx.
  rewrite Hs, Hx, IH2. auto.
Qed.

Lemma cycle_completes (e : Env) (w : World) :
  completedCycles (traceOf (cycle e w)) = 1%nat /\
  existsb isExit (traceOf (cycle e w)) = false.
Proof.
  rewrite cycle_run. cbn [traceOf snd].
  destruct (work_no_cycle _ (postsPhase_work e w)) as [Hp1 Hp2].
  destruct (work_no_cycle _ (commentsPhase_work e (worldOf (postsPhase e w))))
    as [Hc1 Hc2].
  split.
  - change (EvPrint LFetching :: ?l) with ([EvPrint LFetching] ++ l).
    rewrite !completedCycles_app, Hp1, Hc1. reflexivity.
  - cbn [existsb isExit orb]. rewrite !existsb_app, Hp2, Hc2. reflexivity.
Qed.

Lemma mainLoop_cycles (e : Env) (n : nat) (w : World) :
  completedCycles (traceOf (mainLoop e n w)) = n /\
  existsb isExit (traceOf (mainLoop e n w)) = false.
Proof.
  revert w; induction n as [|n IH]; intros w; [auto|].
  cbn [mainLoop]. rewrite bind_trace, completedCycles_app, existsb_app.
  destruct (cycle_completes e w) as [-> ->].
  destruct (IH (worldOf (cycle e w))) as [-> ->]. auto.
Qed.

(** C8.  An iteration of the loop of [main] is the posts half followed
    by the comments half, each run from the world the previous step
    left, followed by the sleep.  When the fetch of one kind fails, that
    half consists of the fetch and the printed error only (nothing is
    processed and the collection is untouched) while the other half is
    fetched and processed as usual.  Whatever the fetches return, [n]
    iterations of the loop complete [n] cycles and never exit. *)
Theorem fetch_failure_isolated (e : Env) (w : World) :
  let posts := postsPhase e w in
  let comments := commentsPhase e (worldOf posts) in
  let fp := fetchPosts e postEndpoint w in
  let fc := fetchComments e commentEndpoint (worldOf posts) in
  cycle e w
  = (tt, worldOf comments,
     EvPrint LFetching :: traceOf posts ++ traceOf comments ++ [EvSleep]) /\
  (snd (valueOf fp) <> None ->
     traceOf posts = traceOf fp ++ [EvPrint (LErrFetching KPost)] /\
     docs (worldOf posts) = docs w) /\
  (snd (valueOf fc) <> None ->
     traceOf comments = traceOf fc ++ [EvPrint (LErrFetching KComment)] /\
     docs (worldOf comments) = docs (worldOf posts)) /\
  (forall items, valueOf fp = (items, None) ->
     posts = (tt, worldOf (processPosts e items (worldOf fp)),
              traceOf fp ++ traceOf (processPosts e items (worldOf fp)))) /\
  (forall items, valueOf fc = (items, None) ->
     comments = (tt, worldOf (processComments e items (worldOf fc)),
                 traceOf fc ++ traceOf (processComments e items (worldOf fc)))) /\
  (forall n : nat,
     completedCycles (traceOf (mainLoop e n w)) = n /\
     existsb isExit (traceOf (mainLoop e n w)) = false).
Proof.
  intros posts comments fp fc.
  split; [apply cycle_run|].
  split; [|split; [|split; [|split; [|intros n; apply mainLoop_cycles]]]].
  - intros Herr. subst posts. rewrite postsPhase_run. cbv zeta. fold fp.
    destruct (snd (valueOf fp)); [|now destruct Herr].
    split; [reflexivity|]. apply fetchPosts_docs.
  - intros Herr. subst comments. rewrite commentsPhase_run. cbv zeta. fold fc.
    destruct (snd (valueOf fc)); [|now destruct Herr].
    split; [reflexivity|]. apply fetchComments_docs.
  - intros items Hv. subst posts. rewrite postsPhase_run. cbv zeta. fold fp.
    rewrite Hv. reflexivity.
  - intros items Hv. subst comments. rewrite commentsPhase_run. cbv zeta. fold fc.
    rewrite Hv. reflexivity.
Qed.

Lemma fetch_failure_isolated_witness :
  let w1 := worldOf (postsPhase emptyListingEnv emptyWorld) in
  traceOf (commentsPhase emptyListingEnv w1)
  = traceOf (fetchComments emptyListingEnv commentEndpoint w1)
    ++ [EvPrint (LErrFetching KComment)] /\
  docs (worldOf (commentsPhase emptyListingEnv w1)) = docs w1.
Proof.
  apply (proj1 (proj2 (proj2 (fetch_failure_isolated emptyListingEnv emptyWorld)))).
  vm_compute. discriminate.
Defined.

(** ** The text of a post *)
















(** ** The body of an alert names its item *)

Lemma alertBody_prefix (k : Kind) (found : list string) (id : string) :
  alertBody k found id = alertPrefix k found +:+ id.
Proof. destruct k; unfold alertBody, alertPrefix; now rewrite !append_assoc. Qed.

Lemma sublist_keywords (found : list string) :
  sublist found keywords ->
  found = [] \/ found = ["VA"] \/ found = ["leads"] \/ found = ["VA"; "leads"].
Proof.
  unfold keywords. intros H.
  apply sublist_cons_r in H as [H | (l & -> & H)];
    apply sublist_cons_r in H as [H | (l' & -> & H)];
    apply sublist_nil_r in H; subst; auto.
Qed.

(** Two alerts with the same body are about the same item. *)
Lemma alertBody_inj (k k' : Kind) (found found' : list string) (id id' : string) :
  sublist found keywords -> sublist found' keywords ->
  alertBody k found id = alertBody k' found' id' -> id = id'.
Proof.
  intros Hf Hf'. rewrite !alertBody_prefix.
  destruct (sublist_keywords _ Hf) as [-> | [-> | [-> | ->]]];
  destruct (sublist_keywords _ Hf') as [-> | [-> | [-> | ->]]];
  destruct k, k'; intros H;
  first [ exact (String.app_inj _ _ _ H) | (vm_compute in H; discriminate H) ].
Qed.

Lemma findKeywords_sublist (text : string) (ks : list string) :
  sublist (findKeywords text ks) ks.
Proof. rewrite findKeywords_filter. apply filter_sublist. Qed.

(** ** Histories *)

Lemma seenAfter_app (seen : list string) (a b : list Event) :
  seenAfter seen (a ++ b) = seenAfter (seenAfter seen a) b.
Proof. unfold seenAfter. apply fold_left_app. Qed.

Lemma seenAfter_mono (seen : list string) (tr : list Event) (id : string) :
  In id seen -> In id (seenAfter seen tr).
Proof.
  revert seen; induction tr as [|ev tr IH]; intros seen H; [exact H|].
  apply IH. destruct ev as [| | | | | id' [err|] | |]; try exact H. now right.
Qed.

Lemma noRealert_app (seen : list string) (a b : list Event) :
  noRealert seen (a ++ b) <-> noRealert seen a /\ noRealert (seenAfter seen a) b.
Proof.
  revert seen; induction a as [|ev a IH]; intros seen.
  - simpl. tauto.
  - cbn [app noRealert]. rewrite IH.
    change (seenAfter seen (ev :: a)) with (seenAfter (seenAfter seen [ev]) a).
    tauto.
Qed.

Lemma quiet_not_alert (ev : Event) (id : string) :
  quiet ev = true -> ~ isAlertFor id ev.
Proof.
  intros Hq (k & found & subject & err & _ & ->). discriminate.
Qed.

Lemma quiet_seenAfter (seen : list string) (tr : list Event) :
  forallb quiet tr = true -> seenAfter seen tr = seen.
Proof.
  revert seen; induction tr as [|ev tr IH]; intros seen H; [reflexivity|].
  cbn [forallb] in H. apply andb_true_iff in H as [Hev H].
  change (seenAfter seen (ev :: tr)) with (seenAfter (seenAfter seen [ev]) tr).
  rewrite IH by exact H.
  destruct ev as [| | | | | id' [err|] | |]; try reflexivity. discriminate.
Qed.

Lemma quiet_noRealert (seen : list string) (tr : list Event) :
  forallb quiet tr = true -> noRealert seen tr.
Proof.
  revert seen; induction tr as [|ev tr IH]; intros seen H; [exact I|].
  cbn [forallb] in H. apply andb_true_iff in H as [Hev H].
  split; [intros id _; now apply quiet_not_alert|].
  rewrite (quiet_seenAfter seen [ev]); [now apply IH|].
  cbn [forallb]. now rewrite Hev.
Qed.

Lemma noRealert_seen (seen : list string) (tr : list Event) (id : string)
    (j : nat) (ev : Event) :
  noRealert seen tr -> In id seen -> tr !! j = Some ev -> ~ isAlertFor id ev.
Proof.
  revert seen j; induction tr as [|ev0 tr IH]; intros seen j Hno Hin Hj;
    [discriminate|].
  destruct Hno as [H0 H]. destruct j as [|j].
  - injection Hj as <-. now apply H0.
  - apply (IH _ j H); [|exact Hj]. now apply seenAfter_mono.
Qed.

(** The reading of [noRealert] by positions in the history. *)
Lemma noRealert_lookup (seen : list string) (tr : list Event) (id : string)
    (i j : nat) (ev : Event) :
  noRealert seen tr ->
  tr !! i = Some (recordOf id) -> (i < j)%nat -> tr !! j = Some ev ->
  ~ isAlertFor id ev.
Proof.
  revert seen i j; induction tr as [|ev0 tr IH]; intros seen i j Hno Hi Hij Hj;
    [discriminate|].
  destruct Hno as [H0 H]. destruct j as [|j]; [lia|]. destruct i as [|i].
  - injection Hi as ->. apply (noRealert_seen _ tr id j ev H); [|exact Hj].
    now left.
  - apply (IH _ i j H Hi); [lia | exact Hj].
Qed.

Lemma delivered_app (id : string) (a b : list Event) :
  delivered id a \/ delivered id b -> delivered id (a ++ b).
Proof.
  intros [(k & found & subject & Hs & H) | (k & found & subject & Hs & H)];
    exists k, found, subject; (split; [exact Hs|]); apply in_or_app; auto.
Qed.

(** ** Keeping an invariant of history and world

    An invariant that survives quiet steps and one run of a loop body
    survives the whole program, restarts included. *)

Lemma startup_quiet (e : Env) (w : World) :
  forallb quiet (traceOf (startup e w)) = true /\
  docs (worldOf (startup e w)) = docs w.
Proof.
  unfold startup, bind, fmt_Println, os_Exit, emit, ask, ret, setupMongoIndex,
    worldOf, traceOf.
  repeat (cbn [tick docs uniqueIndex];
          match goal with
          | |- context [if ?c then _ else _] => destruct c
          end);
    split; reflexivity.
Qed.

Lemma fetchPosts_quiet (e : Env) (endpoint : string) (w : World) :
  forallb quiet (traceOf (fetchPosts e endpoint w)) = true.
Proof.
  rewrite (proj2 (fetchPosts_effect e endpoint w)).
  now destruct (url_refused e endpoint).
Qed.

Lemma fetchComments_quiet (e : Env) (endpoint : string) (w : World) :
  forallb quiet (traceOf (fetchComments e endpoint w)) = true.
Proof.
  rewrite (proj2 (fetchComments_effect e endpoint w)).
  now destruct (url_refused e endpoint).
Qed.

Section Keeping.

Variable I : list Event -> World -> Prop.

Hypothesis I_quiet :
  forall (tr : list Event) (w : World) (evs : list Event) (w' : World),
    I tr w -> forallb quiet evs = true -> docs w' = docs w ->
    I (tr ++ evs) w'.

Hypothesis I_item :
  forall (e : Env) (k : Kind) (text subreddit id : string),
    keeps I (processItem e k text subreddit id).

Lemma keeps_quiet {A : Type} (m : M A) :
  (forall w, forallb quiet (traceOf (m w)) = true /\
             docs (worldOf (m w)) = docs w) ->
  keeps I m.
Proof.
  intros H tr w HI. destruct (H w) as [Hq Hd]. now apply (I_quiet tr w).
Qed.

Lemma keeps_bind {A B : Type} (m : M A) (k : A -> M B) :
  keeps I m -> (forall a, keeps I (k a)) -> keeps I (bind m k).
Proof.
  intros Hm Hk tr w HI. rewrite bind_trace, bind_world, app_assoc.
  apply Hk. now apply Hm.
Qed.

Lemma keeps_ext {A : Type} (m m' : M A) :
  (forall w, m w = m' w) -> keeps I m' -> keeps I m.
Proof. intros Heq H tr w HI. rewrite Heq. now apply H. Qed.

Lemma keeps_ret {A : Type} (a : A) : keeps I (ret a).
Proof. apply keeps_quiet. intros w. split; reflexivity. Qed.

Lemma keeps_emit (ev : Event) : quiet ev = true -> keeps I (emit ev).
Proof.
  intros Hq. apply keeps_quiet. intros w. cbn. rewrite Hq. auto.
Qed.

Lemma keeps_processPosts (e : Env) (posts : list Post) :
  keeps I (processPosts e posts).
Proof.
  induction posts as [|post rest IH]; [apply keeps_ret|].
  cbn [processPosts]. apply keeps_bind; [|intros _; exact IH].
  rewrite processPosts_body_item. apply I_item.
Qed.

Lemma keeps_processComments (e : Env) (comments : list Comment) :
  keeps I (processComments e comments).
Proof.
  induction comments as [|comment rest IH]; [apply keeps_ret|].
  cbn [processComments]. apply keeps_bind; [|intros _; exact IH].
  rewrite processComments_body_item. apply I_item.
Qed.

Lemma keeps_postsPhase (e : Env) : keeps I (postsPhase e).
Proof.
  unfold postsPhase. apply keeps_bind.
  - apply keeps_quiet. intros w. split;
      [apply fetchPosts_quiet | apply fetchPosts_docs].
  - intros [posts [err|]]; [now apply keeps_emit | apply keeps_processPosts].
Qed.

Lemma keeps_commentsPhase (e : Env) : keeps I (commentsPhase e).
Proof.
  unfold commentsPhase. apply keeps_bind.
  - apply keeps_quiet. intros w. split;
      [apply fetchComments_quiet | apply fetchComments_docs].
  - intros [comments [err|]]; [now apply keeps_emit | apply keeps_processComments].
Qed.

Lemma keeps_cycle (e : Env) : keeps I (cycle e).
Proof.
  eapply keeps_ext; [intros w; apply cycle_phases|].
  apply keeps_bind; [now apply keeps_emit|]. intros _.
  apply keeps_bind; [apply keeps_postsPhase|]. intros _.
  apply keeps_bind; [apply keeps_commentsPhase|]. intros _.
  now apply keeps_emit.
Qed.

Lemma keeps_mainLoop (e : Env) (n : nat) : keeps I (mainLoop e n).
Proof.
  induction n as [|n IH]; [apply keeps_ret|].
  cbn [mainLoop]. apply keeps_bind; [apply keeps_cycle | intros _; exact IH].
Qed.

Lemma keeps_main (e : Env) (n : nat) : keeps I (main e n).
Proof.
  unfold main. apply keeps_bind.
  - apply keeps_quiet. apply startup_quiet.
  - intros [code|]; [apply keeps_ret|].
    apply keeps_bind; [apply keeps_mainLoop | intros _; apply keeps_ret].
Qed.

Lemma keeps_restarts (e : Env) (runs : list nat) : keeps I (restarts e runs).
Proof.
  induction runs as [|n rest IH]; [apply keeps_ret|].
  cbn [restarts]. apply keeps_bind; [apply keeps_main | intros _; exact IH].
Qed.

End Keeping.

(** ** One run of a loop body and the two invariants *)

Lemma quiet_looked (id : string) (err : option error) (text : string)
    (found : list string) (out : list Line) :
  forallb quiet (EvFindOne id err :: EvFindKeywords text found :: map EvPrint out)
  = true.
Proof. cbn [forallb quiet andb]. now apply forallb_map_print. Qed.

Lemma send_not_realert (seen : list string) (w : World) (k : Kind)
    (found : list string) (subject id : string) (err : option error) :
  covers seen w -> hasDoc id (docs w) = false -> sublist found keywords ->
  forall id', In id' seen ->
              ~ isAlertFor id' (EvSendEmail subject (alertBody k found id) err).
Proof.
  intros Hc Hd Hs id' Hin (k' & found' & subject' & err' & Hs' & Heq).
  injection Heq as _ Hbody _.
  apply (alertBody_inj k k' found found' id id' Hs Hs') in Hbody. subst id'.
  rewrite (Hc id Hin) in Hd. discriminate.
Qed.

Lemma covers_docs (seen : list string) (w w' : World) :
  docs w' = docs w -> covers seen w -> covers seen w'.
Proof. unfold covers. intros ->. auto. Qed.

Lemma processItem_safe (e : Env) (k : Kind) (text subreddit id : string)
    (w : World) (seen : list string) :
  covers seen w ->
  noRealert seen (traceOf (processItem e k text subreddit id w)) /\
  covers (seenAfter seen (traceOf (processItem e k text subreddit id w)))
    (worldOf (processItem e k text subreddit id w)).
Proof.
  intros Hc. rewrite processItem_run.
  assert (Hquiet : forall (evs : list Event) (n : nat),
    forallb quiet evs = true ->
    noRealert seen evs /\ covers (seenAfter seen evs) (tickWorld n w)).
  { intros evs n Hq. split; [now apply quiet_noRealert|].
    rewrite (quiet_seenAfter seen evs Hq). now apply (covers_docs seen w). }
  destruct (mongoFindFails e (tick w)); [now apply Hquiet|].
  destruct (hasDoc id (docs w)) eqn:Hd; [now apply Hquiet|].
  cbv zeta. pose proof (findKeywords_sublist text keywords) as Hs.
  pose proof (quiet_looked id (Some ErrNoDocuments) text
                (findKeywords text keywords) (findKeywords_output text keywords))
    as Hl.
  destruct (0 <? List.length _)%nat; [|now apply Hquiet].
  pose proof (send_not_realert seen w k (findKeywords text keywords)
                (alertSubject k subreddit) id) as Hsend.
  destruct (smtpFails e (S (tick w)));
    [|destruct (mongoInsertFails e (S (S (tick w))))];
    cbn [traceOf worldOf fst snd];
    rewrite noRealert_app, seenAfter_app, (quiet_seenAfter seen _ Hl);
    (split; [split; [now apply quiet_noRealert|]|]).
  - cbn [noRealert seenAfter fold_left]. repeat split; auto;
      intros id' _; now apply quiet_not_alert.
  - now apply (covers_docs seen w).
  - cbn [noRealert seenAfter fold_left]. repeat split; auto;
      intros id' _; now apply quiet_not_alert.
  - now apply (covers_docs seen w).
  - cbn [noRealert seenAfter fold_left]. repeat split; auto;
      try (intros id' _; now apply quiet_not_alert).
    intros id' _ (k' & found' & subject' & err' & _ & Heq). discriminate.
  - cbn [seenAfter fold_left]. intros id' [<- | Hin]; cbn [docs].
    + rewrite hasDoc_app, hasDoc_single, String.eqb_refl. apply orb_true_r.
    + rewrite hasDoc_app, (Hc id' Hin). reflexivity.
Qed.

Lemma recordedOnce_quiet (tr : list Event) (w : World) (evs : list Event) (w' : World) :
  recordedOnce tr w -> forallb quiet evs = true -> docs w' = docs w ->
  recordedOnce (tr ++ evs) w'.
Proof.
  intros [Hn Hc] Hq Hd. split.
  - apply noRealert_app. split; [exact Hn | now apply quiet_noRealert].
  - rewrite seenAfter_app, (quiet_seenAfter _ evs Hq). now apply (covers_docs _ w).
Qed.

Lemma recordedOnce_item (e : Env) (k : Kind) (text subreddit id : string) :
  keeps recordedOnce (processItem e k text subreddit id).
Proof.
  intros tr w [Hn Hc].
  destruct (processItem_safe e k text subreddit id w _ Hc) as [Hn' Hc'].
  split.
  - apply noRealert_app. auto.
  - now rewrite seenAfter_app.
Qed.

Lemma storeWithinDelivered_quiet (tr : list Event) (w : World) (evs : list Event)
    (w' : World) :
  storeWithinDelivered tr w -> forallb quiet evs = true -> docs w' = docs w ->
  storeWithinDelivered (tr ++ evs) w'.
Proof.
  intros H _ Hd id Hin. rewrite Hd in Hin. apply delivered_app. left. now apply H.
Qed.

Lemma storeWithinDelivered_item (e : Env) (k : Kind) (text subreddit id : string) :
  keeps storeWithinDelivered (processItem e k text subreddit id).
Proof.
  intros tr w H. rewrite processItem_run.
  assert (Hsame : forall (evs : list Event) (n : nat),
            storeWithinDelivered (tr ++ evs) (tickWorld n w)).
  { intros evs n id' Hin. apply delivered_app. left. now apply H. }
  destruct (mongoFindFails e (tick w)); [apply Hsame|].
  destruct (hasDoc id (docs w)); [apply Hsame|].
  cbv zeta. destruct (0 <? List.length _)%nat; [|apply Hsame].
  destruct (smtpFails e (S (tick w))); [apply Hsame|].
  destruct (mongoInsertFails e (S (S (tick w)))); [apply Hsame|].
  cbn [traceOf worldOf fst snd]. intros id' Hin. cbn [docs] in Hin.
  rewrite hasDoc_app, hasDoc_single in Hin. apply delivered_app.
  apply orb_true_iff in Hin as [Hin | Hin]; [left; now apply H|].
  apply String.eqb_eq in Hin. subst id'. right.
  exists k, (findKeywords text keywords), (alertSubject k subreddit).
  split; [apply findKeywords_sublist|].
  apply in_or_app. right. right. now left.
Qed.

(** ** Alerts and records over whole runs *)

(** Once the record of an identifier has succeeded, no later event of
    the history is an alert for that identifier, however many
    iterations follow and however often the process is restarted in
    between. *)
Theorem recorded_item_never_alerted_again (e : Env) (runs : list nat) (w : World)
    (id : string) (i j : nat) (ev : Event) :
  traceOf (restarts e runs w) !! i = Some (recordOf id) ->
  (i < j)%nat ->
  traceOf (restarts e runs w) !! j = Some ev ->
  ~ isAlertFor id ev.
Proof.
  intros Hi Hij Hj.
  assert (H0 : recordedOnce [] w) by (split; [exact I | intros x []]).
  destruct (keeps_restarts recordedOnce recordedOnce_quiet recordedOnce_item
              e runs [] w H0) as [Hn _].
  cbn [app] in Hn. exact (noRealert_lookup [] _ id i j ev Hn Hi Hij Hj).
Qed.

Lemma knownAndSilent_quiet (id : string) (tr : list Event) (w : World)
    (evs : list Event) (w' : World) :
  knownAndSilent id tr w -> forallb quiet evs = true -> docs w' = docs w ->
  knownAndSilent id (tr ++ evs) w'.
Proof.
  intros [Hd Hs] Hq Hw. split; [now rewrite Hw|].
  intros ev Hin. apply in_app_or in Hin as [Hin | Hin]; [now apply Hs|].
  apply quiet_not_alert. rewrite forallb_forall in Hq. now apply Hq.
Qed.

Lemma knownAndSilent_item (id0 : string) (e : Env) (k : Kind)
    (text subreddit id : string) :
  keeps (knownAndSilent id0) (processItem e k text subreddit id).
Proof.
  intros tr w [Hd Hs].
  assert (Hc : covers [id0] w) by (intros x [<- | []]; exact Hd).
  destruct (processItem_safe e k text subreddit id w [id0] Hc) as [Hn Hc'].
  split.
  - apply Hc'. apply seenAfter_mono. now left.
  - intros ev Hin. apply in_app_or in Hin as [Hin | Hin]; [now apply Hs|].
    destruct (proj1 (list_elem_of_lookup _ _) (proj2 (list_elem_of_In _ _) Hin))
      as [j Hj].
    apply (noRealert_seen [id0] _ id0 j ev Hn); [now left | exact Hj].
Qed.

(** An identifier that is in the collection when a process starts, put
    there by this process, an earlier one or another instance, is never
    alerted by it. *)
Theorem known_item_never_alerted (e : Env) (runs : list nat) (w : World)
    (id : string) (ev : Event) :
  hasDoc id (docs w) = true ->
  In ev (traceOf (restarts e runs w)) ->
  ~ isAlertFor id ev.
Proof.
  intros Hd Hin.
  assert (H0 : knownAndSilent id [] w) by (split; [exact Hd | intros x []]).
  destruct (keeps_restarts (knownAndSilent id) (knownAndSilent_quiet id)
              (knownAndSilent_item id) e runs [] w H0) as [_ Hs].
  now apply Hs.
Qed.

(** Started on an empty collection, the program keeps the collection
    within the delivered alerts: every identifier it holds has had an
    alert for it sent with [sendEmail] returning nil. *)
Theorem store_within_delivered (e : Env) (runs : list nat) (w : World) (id : string) :
  docs w = [] ->
  hasDoc id (docs (worldOf (restarts e runs w))) = true ->
  delivered id (traceOf (restarts e runs w)).
Proof.
  intros Hw Hin.
  assert (H0 : storeWithinDelivered [] w).
  { intros x Hx. rewrite Hw in Hx. discriminate. }
  exact (keeps_restarts storeWithinDelivered storeWithinDelivered_quiet
           storeWithinDelivered_item e runs [] w H0 id Hin).
Qed.

Lemma recorded_item_never_alerted_again_witness :
  ~ isAlertFor "/r/test/1"
      (EvSendEmail (alertSubject KComment "test")
         (alertBody KComment ["leads"] "/r/test/1/c1") None).
Proof.
  apply (recorded_item_never_alerted_again calmEnv [1%nat; 1%nat] emptyWorld
           "/r/test/1" 11 16).
  - vm_compute. reflexivity.
  - lia.
  - vm_compute. reflexivity.
Defined.

Lemma known_item_never_alerted_witness :
  ~ isAlertFor "/r/test/1"
      (EvSendEmail (alertSubject KComment "test")
         (alertBody KComment ["leads"] "/r/test/1/c1") None).
Proof.
  apply (known_item_never_alerted calmEnv [1%nat]
           (mkWorld 0 [mkDoc "/r/test/1" 0] true) "/r/test/1").
  - vm_compute. reflexivity.
  - vm_compute. repeat (try (left; reflexivity); right).
Defined.

Lemma store_within_delivered_witness :
  delivered "/r/test/1" (traceOf (restarts calmEnv [1%nat] emptyWorld)).
Proof.
  apply (store_within_delivered calmEnv [1%nat] emptyWorld "/r/test/1").
  - reflexivity.
  - vm_compute. reflexivity.
Defined.

(** ** What a loop body does about recording *)

Lemma recordsAfterDelivery_no_insert (k : Kind) (id : string) (w : World)
    (r : unit * World * list Event) :
  forallb (fun ev => negb (isInsert ev)) (traceOf r) = true ->
  docs (worldOf r) = docs w ->
  recordsAfterDelivery k id w r.
Proof.
  intros Hni Hd. rewrite forallb_forall in Hni.
  split; [|split; [|split]].
  - intros id' err Hin. apply Hni in Hin. discriminate.
  - intros _. exact Hd.
  - intros Hin. apply Hni in Hin. discriminate.
  - intros id' _. now rewrite Hd.
Qed.

Lemma looked_no_insert (id : string) (err : option error) (text : string)
    (found : list string) (out : list Line) :
  forallb (fun ev => negb (isInsert ev))
    (EvFindOne id err :: EvFindKeywords text found :: map EvPrint out) = true.
Proof. cbn [forallb isInsert negb andb]. now apply forallb_map_print. Qed.

Lemma looked_not_insert (id : string) (err : option error) (text : string)
    (found : list string) (out : list Line) (id' : string) (err' : option error) :
  ~ In (EvInsertOne id' err')
      (EvFindOne id err :: EvFindKeywords text found :: map EvPrint out).
Proof.
  intros Hin. pose proof (looked_no_insert id err text found out) as H.
  rewrite forallb_forall in H. apply H in Hin. discriminate.
Qed.

Lemma processItem_records_after_delivery (e : Env) (k : Kind)
    (text subreddit id : string) (w : World) :
  recordsAfterDelivery k id w (processItem e k text subreddit id w).
Proof.
  rewrite processItem_run.
  destruct (mongoFindFails e (tick w));
    [now apply recordsAfterDelivery_no_insert|].
  destruct (hasDoc id (docs w)) eqn:Hd;
    [now apply recordsAfterDelivery_no_insert|].
  cbv zeta. destruct (0 <? List.length _)%nat;
    [|apply recordsAfterDelivery_no_insert;
      [apply looked_no_insert | reflexivity]].
  destruct (smtpFails e (S (tick w))).
  { apply recordsAfterDelivery_no_insert; [|reflexivity].
    cbn [traceOf snd]. rewrite forallb_app, looked_no_insert. reflexivity. }
  pose proof (findKeywords_sublist text keywords) as Hs.
  assert (Hshape : forall (tail : list Event) (id' : string) (err : option error),
    In (EvInsertOne id' err)
       ((EvFindOne id (Some ErrNoDocuments)
         :: EvFindKeywords text (findKeywords text keywords)
         :: map EvPrint (findKeywords_output text keywords))
        ++ EvPrint (LFoundKeywords k (findKeywords text keywords) subreddit id)
           :: EvSendEmail (alertSubject k subreddit)
                (alertBody k (findKeywords text keywords) id) None
           :: EvPrint (LEmailSent (recipientEmail e)) :: tail) ->
    In (EvInsertOne id' err) tail /\
    exists before after subject found,
      sublist found keywords /\
      (EvFindOne id (Some ErrNoDocuments)
       :: EvFindKeywords text (findKeywords text keywords)
       :: map EvPrint (findKeywords_output text keywords))
      ++ EvPrint (LFoundKeywords k (findKeywords text keywords) subreddit id)
         :: EvSendEmail (alertSubject k subreddit)
              (alertBody k (findKeywords text keywords) id) None
         :: EvPrint (LEmailSent (recipientEmail e)) :: tail
      = before ++ EvSendEmail subject (alertBody k found id) None :: after /\
      In (EvInsertOne id' err) after).
  { intros tail id' err Hin. apply in_app_or in Hin as [Hin | Hin];
      [now apply looked_not_insert in Hin|].
    destruct Hin as [H | [H | [H | Hin]]]; try discriminate.
    split; [exact Hin|].
    eexists (_ ++ [_]), _, _, _. split; [exact Hs|].
    split; [rewrite <- app_assoc; reflexivity|]. now right. }
  assert (Hsent : forall tail : list Event,
    ~ (forall subject body,
         ~ In (EvSendEmail subject body None)
             ((EvFindOne id (Some ErrNoDocuments)
               :: EvFindKeywords text (findKeywords text keywords)
               :: map EvPrint (findKeywords_output text keywords))
              ++ EvPrint (LFoundKeywords k (findKeywords text keywords) subreddit id)
                 :: EvSendEmail (alertSubject k subreddit)
                      (alertBody k (findKeywords text keywords) id) None
                 :: tail))).
  { intros tail Hno. apply (Hno (alertSubject k subreddit)
                              (alertBody k (findKeywords text keywords) id)).
    apply in_or_app. right. right. now left. }
  destruct (mongoInsertFails e (S (S (tick w))));
    unfold recordsAfterDelivery; cbn [traceOf worldOf fst snd tickWorld docs].
  - split; [|split; [|split]].
    + intros id' err Hin. destruct (Hshape _ id' err Hin) as [Htail Hex].
      split; [|exact Hex].
      destruct Htail as [H | [H | []]]; [now injection H | discriminate].
    + reflexivity.
    + intros Hin. destruct (Hshape _ _ _ Hin) as [[H | [H | []]] _]; discriminate.
    + reflexivity.
  - split; [|split; [|split]].
    + intros id' err Hin. destruct (Hshape _ id' err Hin) as [Htail Hex].
      split; [|exact Hex].
      destruct Htail as [H | []]. now injection H.
    + intros Hno. now destruct (Hsent _ Hno).
    + intros _. rewrite hasDoc_app, hasDoc_single, String.eqb_refl.
      apply orb_true_r.
    + intros id' Hne. rewrite hasDoc_app, hasDoc_single.
      destruct (String.eqb_spec id id') as [<- | _]; [now destruct Hne|].
      apply orb_false_r.
Qed.

(** The insert of an identifier is attempted only for the item at hand
    and only after [sendEmail] returned nil for its alert; when no alert
    was delivered (no keyword found, the item already recorded, the
    lookup or the mail failing) the collection is left as it was; a
    successful insert puts the identifier in the collection and no other
    identifier is touched.  Both loops behave so. *)
Theorem record_only_after_delivery (e : Env) (w : World) :
  (forall post : Post,
      recordsAfterDelivery KPost (Post_Permalink post) w
        (processPosts_body e post w)) /\
  (forall comment : Comment,
      recordsAfterDelivery KComment (Comment_Permalink comment) w
        (processComments_body e comment w)).
Proof.
  split.
  - intros post. rewrite processPosts_body_item.
    apply processItem_records_after_delivery.
  - intros comment. rewrite processComments_body_item.
    apply processItem_records_after_delivery.
Qed.

Lemma record_only_after_delivery_witness :
  recordsAfterDelivery KPost "/r/test/1" emptyWorld
    (processPosts_body calmEnv samplePost emptyWorld).
Proof. exact (proj1 (record_only_after_delivery calmEnv emptyWorld) samplePost). Defined.

(** ** When an alert is sent *)

Lemma count_app (P : Event -> bool) (a b : list Event) :
  count P (a ++ b) = (count P a + count P b)%nat.
Proof. unfold count. now rewrite List.filter_app, length_app. Qed.

Lemma count_prints (P : Event -> bool) (out : list Line) :
  (forall l, P (EvPrint l) = false) -> count P (map EvPrint out) = 0%nat.
Proof.
  intros H. unfold count. induction out as [|l out IH]; [reflexivity|].
  cbn [map List.filter]. now rewrite H.
Qed.

Lemma processItem_calls (e : Env) (k : Kind) (text subreddit id : string) (w : World) :
  let r := processItem e k text subreddit id w in
  let alerting :=
    negb (mongoFindFails e (tick w)) && negb (hasDoc id (docs w))
    && (0 <? List.length (findKeywords text keywords))%nat in
  count isSend (traceOf r) = (if alerting then 1 else 0)%nat /\
  count isInsert (traceOf r)
  = (if alerting && negb (smtpFails e (S (tick w))) then 1 else 0)%nat /\
  (tick (worldOf r) <= 3 + tick w)%nat.
Proof.
  cbv zeta. rewrite processItem_run.
  destruct (mongoFindFails e (tick w)); [cbn; repeat split; lia|].
  destruct (hasDoc id (docs w)); [cbn; repeat split; lia|].
  cbv zeta. cbn [negb andb].
  assert (Hl : forall P : Event -> bool,
            (forall l, P (EvPrint l) = false) ->
            P (EvFindOne id (Some ErrNoDocuments)) = false ->
            P (EvFindKeywords text (findKeywords text keywords)) = false ->
            count P (EvFindOne id (Some ErrNoDocuments)
                     :: EvFindKeywords text (findKeywords text keywords)
                     :: map EvPrint (findKeywords_output text keywords)) = 0%nat).
  { intros P HP H1 H2.
    change (EvFindOne ?a ?b :: EvFindKeywords ?c ?d :: ?l)
      with ([EvFindOne a b; EvFindKeywords c d] ++ l).
    rewrite count_app, (count_prints P _ HP). unfold count. cbn [List.filter].
    now rewrite H1, H2. }
  destruct (0 <? List.length _)%nat.
  - destruct (smtpFails e (S (tick w)));
      [|destruct (mongoInsertFails e (S (S (tick w))))];
      cbn [traceOf worldOf fst snd tickWorld tick negb andb];
      rewrite !count_app, !Hl by reflexivity; cbn; repeat split; lia.
  - cbn [traceOf worldOf fst snd tickWorld tick]. rewrite !Hl by reflexivity.
    repeat split; lia.
Qed.

(** [sendEmail] is called for an item exactly when its lookup succeeds
    and finds no document and at least one keyword matches its text, and
    then once; the insert is attempted exactly when moreover the mail
    was sent, and then once; an item costs at most three calls to the
    outside.  So a loop over [n] items sends at most [n] alerts. *)
Theorem alert_exactly_when_new_and_matching (e : Env) (w : World) :
  (forall post : Post,
      let r := processPosts_body e post w in
      let alerting :=
        negb (mongoFindFails e (tick w))
        && negb (hasDoc (Post_Permalink post) (docs w))
        && (0 <? List.length
                   (findKeywords (Post_Title post +:+ " " +:+ Post_Selftext post)
                      keywords))%nat in
      count isSend (traceOf r) = (if alerting then 1 else 0)%nat /\
      count isInsert (traceOf r)
      = (if alerting && negb (smtpFails e (S (tick w))) then 1 else 0)%nat) /\
  (forall comment : Comment,
      let r := processComments_body e comment w in
      let alerting :=
        negb (mongoFindFails e (tick w))
        && negb (hasDoc (Comment_Permalink comment) (docs w))
        && (0 <? List.length (findKeywords (Comment_Body comment) keywords))%nat in
      count isSend (traceOf r) = (if alerting then 1 else 0)%nat /\
      count isInsert (traceOf r)
      = (if alerting && negb (smtpFails e (S (tick w))) then 1 else 0)%nat) /\
  (forall posts : list Post,
      (count isSend (traceOf (processPosts e posts w)) <= List.length posts)%nat /\
      (tick (worldOf (processPosts e posts w))
       <= 3 * List.length posts + tick w)%nat) /\
  (forall comments : list Comment,
      (count isSend (traceOf (processComments e comments w))
       <= List.length comments)%nat /\
      (tick (worldOf (processComments e comments w))
       <= 3 * List.length comments + tick w)%nat).
Proof.
  split; [|split; [|split]].
  - intros post. cbv zeta. rewrite processPosts_body_item.
    pose proof (processItem_calls e KPost
                  (Post_Title post +:+ " " +:+ Post_Selftext post)
                  (Post_Subreddit post) (Post_Permalink post) w) as H.
    cbv zeta in H. tauto.
  - intros comment. cbv zeta. rewrite processComments_body_item.
    pose proof (processItem_calls e KComment (Comment_Body comment)
                  (Comment_Subreddit comment) (Comment_Permalink comment) w) as H.
    cbv zeta in H. tauto.
  - intros posts. revert w. induction posts as [|post rest IH]; intros w.
    + cbn. lia.
    + cbn [processPosts]. rewrite bind_trace, bind_world, count_app.
      rewrite processPosts_body_item.
      pose proof (processItem_calls e KPost
                    (Post_Title post +:+ " " +:+ Post_Selftext post)
                    (Post_Subreddit post) (Post_Permalink post) w) as H.
      cbv zeta in H. destruct H as (Hs & _ & Ht).
      destruct (IH (worldOf (processItem e KPost
                      (Post_Title post +:+ " " +:+ Post_Selftext post)
                      (Post_Subreddit post) (Post_Permalink post) w))) as [IHs IHt].
      cbn [List.length]. split; [|lia].
      rewrite Hs. destruct (_ && _ && _); lia.
  - intros comments. revert w. induction comments as [|comment rest IH]; intros w.
    + cbn. lia.
    + cbn [processComments]. rewrite bind_trace, bind_world, count_app.
      rewrite processComments_body_item.
      pose proof (processItem_calls e KComment (Comment_Body comment)
                    (Comment_Subreddit comment) (Comment_Permalink comment) w) as H.
      cbv zeta in H. destruct H as (Hs & _ & Ht).
      destruct (IH (worldOf (processItem e KComment (Comment_Body comment)
                      (Comment_Subreddit comment) (Comment_Permalink comment) w)))
        as [IHs IHt].
      cbn [List.length]. split; [|lia].
      rewrite Hs. destruct (_ && _ && _); lia.
Qed.

Lemma alert_exactly_when_new_and_matching_witness :
  count isSend (traceOf (processPosts_body calmEnv samplePost emptyWorld)) = 1%nat.
Proof.
  exact (proj1 (proj1 (alert_exactly_when_new_and_matching calmEnv emptyWorld)
                  samplePost)).
Defined.

(** ** The gap between alert and record *)

(** When the insert fails after the alert of a post was delivered, the
    failure is printed and the post stays unrecorded; if the post is
    fetched again and lookup and mail work, the same alert is sent a
    second time. *)
Theorem failed_record_is_alerted_again (e : Env) (post : Post) (w : World) :
  let text := Post_Title post +:+ " " +:+ Post_Selftext post in
  let id := Post_Permalink post in
  let alert := EvSendEmail (alertSubject KPost (Post_Subreddit post))
                 (alertBody KPost (findKeywords text keywords) id) None in
  let first := processPosts_body e post w in
  let second := processPosts_body e post (worldOf first) in
  findKeywords text keywords <> [] ->
  hasDoc id (docs w) = false ->
  mongoFindFails e (tick w) = false ->
  smtpFails e (1 + tick w) = false ->
  mongoInsertFails e (2 + tick w) = true ->
  mongoFindFails e (3 + tick w) = false ->
  smtpFails e (4 + tick w) = false ->
  docs (worldOf first) = docs w /\
  In alert (traceOf first) /\
  In (EvPrint (LErrInserting KPost id)) (traceOf first) /\
  In alert (traceOf second).
Proof.
  intros text id alert first second Hfound Hd Hf1 Hs1 Hi1 Hf2 Hs2.
  assert (Hlen : (0 <? List.length (findKeywords text keywords))%nat = true).
  { destruct (findKeywords text keywords); [now destruct Hfound | reflexivity]. }
  assert (Hfirst : first
    = (tt, tickWorld 3 w,
       (EvFindOne id (Some ErrNoDocuments)
        :: EvFindKeywords text (findKeywords text keywords)
        :: map EvPrint (findKeywords_output text keywords))
       ++ [EvPrint (LFoundKeywords KPost (findKeywords text keywords)
                      (Post_Subreddit post) id);
           alert; EvPrint (LEmailSent (recipientEmail e));
           EvInsertOne id (Some (ErrOther "insert"));
           EvPrint (LErrInserting KPost id)])).
  { subst first. rewrite processPosts_body_item, processItem_run.
    fold text id. cbv zeta. cbn [Nat.add] in Hs1, Hi1.
    now rewrite Hf1, Hd, Hlen, Hs1, Hi1. }
  split; [now rewrite Hfirst|]. split; [|split].
  - rewrite Hfirst. cbn [traceOf snd]. apply in_or_app. right. right. now left.
  - rewrite Hfirst. cbn [traceOf snd]. apply in_or_app. right.
    do 4 right. now left.
  - subst second. rewrite Hfirst. cbn [worldOf fst snd].
    rewrite processPosts_body_item, processItem_run.
    fold text id. cbv zeta. cbn [tickWorld tick docs].
    cbn [Nat.add] in Hf2, Hs2. cbn [Nat.add]. rewrite Hf2, Hd, Hlen, Hs2.
    clear Hi1.
    destruct (mongoInsertFails e _); cbn [traceOf snd];
      apply in_or_app; right; right; now left.
Qed.

Lemma failed_record_is_alerted_again_witness :
  In (EvSendEmail (alertSubject KPost "test")
        (alertBody KPost ["VA"] "/r/test/1") None)
     (traceOf (processPosts_body (sampleEnv never never always) samplePost
                 (worldOf (processPosts_body (sampleEnv never never always)
                             samplePost emptyWorld)))).
Proof.
  assert (Hfound : findKeywords ("Hiring a VA" +:+ " " +:+ "") keywords <> [])
    by (vm_compute; discriminate).
  exact (proj2 (proj2 (proj2
    (failed_record_is_alerted_again (sampleEnv never never always) samplePost
       emptyWorld Hfound eq_refl eq_refl eq_refl eq_refl eq_refl eq_refl)))).
Defined.

(** ** The collection only grows *)

Lemma hasDoc_In (id : string) (ds : list Doc) :
  hasDoc id ds = true <-> In id (map permalink ds).
Proof.
  unfold hasDoc. rewrite existsb_exists, in_map_iff. split.
  - intros (d & Hin & Heq). apply String.eqb_eq in Heq. now exists d.
  - intros (d & Heq & Hin). exists d. split; [exact Hin|]. now apply String.eqb_eq.
Qed.

Lemma growsFrom_quiet (ds : list Doc) (tr : list Event) (w : World)
    (evs : list Event) (w' : World) :
  growsFrom ds tr w -> forallb quiet evs = true -> docs w' = docs w ->
  growsFrom ds (tr ++ evs) w'.
Proof. unfold growsFrom. intros H _ ->. exact H. Qed.

Lemma growsFrom_item (ds : list Doc) (e : Env) (k : Kind)
    (text subreddit id : string) :
  keeps (growsFrom ds) (processItem e k text subreddit id).
Proof.
  intros tr w [[added Hadd] Hnd]. rewrite processItem_run.
  assert (Hsame : forall (n : nat) (evs : list Event),
            growsFrom ds (tr ++ evs) (tickWorld n w)).
  { intros n evs. split; [now exists added | exact Hnd]. }
  destruct (mongoFindFails e (tick w)); [apply Hsame|].
  destruct (hasDoc id (docs w)) eqn:Hd; [apply Hsame|].
  cbv zeta. destruct (0 <? List.length _)%nat; [|apply Hsame].
  destruct (smtpFails e (S (tick w))); [apply Hsame|].
  destruct (mongoInsertFails e (S (S (tick w)))); [apply Hsame|].
  cbn [worldOf traceOf fst snd]. split; cbn [docs].
  - exists (added ++ [mkDoc id (time_Now e (S (S (tick w))))]).
    now rewrite Hadd, app_assoc.
  - intros Hds. rewrite map_app. cbn [map permalink].
    apply NoDup_ListNoDup, NoDup_app. split; [|split].
    + apply NoDup_ListNoDup. now apply Hnd.
    + intros x Hx [= <-]%list_elem_of_singleton.
      apply list_elem_of_In, hasDoc_In in Hx. congruence.
    + apply NoDup_singleton.
Qed.

(** Whatever the program does, restarts included, it only appends
    documents to the collection, and it never adds a second document for
    a permalink: a collection without duplicates stays so, with or
    without the unique index. *)
Theorem collection_grows_without_duplicates (e : Env) (runs : list nat) (w : World) :
  (exists added, docs (worldOf (restarts e runs w)) = docs w ++ added) /\
  (List.NoDup (map permalink (docs w)) ->
   List.NoDup (map permalink (docs (worldOf (restarts e runs w))))).
Proof.
  assert (H0 : growsFrom (docs w) [] w).
  { split; [exists []; now rewrite app_nil_r | auto]. }
  exact (keeps_restarts (growsFrom (docs w)) (growsFrom_quiet (docs w))
           (growsFrom_item (docs w)) e runs [] w H0).
Qed.

Lemma collection_grows_without_duplicates_witness :
  List.NoDup (map permalink (docs (worldOf (restarts calmEnv [2%nat] emptyWorld)))).
Proof.
  apply (proj2 (collection_grows_without_duplicates calmEnv [2%nat] emptyWorld)).
  constructor.
Defined.

(** ** Starting the process *)

Lemma startup_cases (e : Env) (w : World) :
  let ready :=
    configComplete e && negb (mongoConnectFails e (tick w))
    && negb (mongoPingFails e (S (tick w))) in
  valueOf (startup e w) = (if ready then None else Some 1%Z) /\
  docs (worldOf (startup e w)) = docs w /\
  (if ready then forallb isWork (traceOf (startup e w)) = true
   else exists line,
          traceOf (startup e w) = [EvPrint LStarting; EvPrint line; EvExit 1]).
Proof.
  cbv zeta. unfold configComplete, startup, bind, fmt_Println, os_Exit, emit, ask,
    ret, setupMongoIndex, valueOf, worldOf, traceOf.
  destruct (String.eqb (gmailUser e) "" || String.eqb (gmailAppPassword e) ""
            || String.eqb (recipientEmail e) "");
    [cbn; repeat split; now eexists|].
  destruct (String.eqb (mongoURI e) ""); [cbn; repeat split; now eexists|].
  cbn [tick docs uniqueIndex negb andb].
  destruct (mongoConnectFails e (tick w)); [cbn; repeat split; now eexists|].
  cbn [tick docs uniqueIndex negb andb].
  destruct (mongoPingFails e (S (tick w))); [cbn; repeat split; now eexists|].
  cbn [tick docs uniqueIndex negb andb].
  destruct (mongoIndexFails e (S (S (tick w)))); cbn; repeat split.
Qed.

(** [main] exits with status 1, before any request to Reddit, any mail
    and any write to the collection, exactly when one of the three mail
    settings or the MongoDB URI is empty, the connection fails or the
    ping fails; otherwise it never exits and its loop completes every
    iteration it is given. *)
Theorem main_exits_unless_ready (e : Env) (n : nat) (w : World) :
  let ready :=
    configComplete e && negb (mongoConnectFails e (tick w))
    && negb (mongoPingFails e (S (tick w))) in
  let r := main e n w in
  valueOf r = (if ready then None else Some 1%Z) /\
  (ready = false ->
     docs (worldOf r) = docs w /\
     count isHttpGet (traceOf r) = 0%nat /\
     count isSend (traceOf r) = 0%nat /\
     count isInsert (traceOf r) = 0%nat /\
     completedCycles (traceOf r) = 0%nat /\
     last (traceOf r) = Some (EvExit 1)) /\
  (ready = true ->
     completedCycles (traceOf r) = n /\ existsb isExit (traceOf r) = false).
Proof.
  cbv zeta. destruct (startup_cases e w) as (Hv & Hd & Ht). cbv zeta in Hv, Ht.
  unfold main. rewrite bind_run. rewrite Hv.
  destruct (configComplete e && negb (mongoConnectFails e (tick w))
            && negb (mongoPingFails e (S (tick w)))).
  - cbn [valueOf worldOf traceOf fst snd].
    split; [now rewrite bind_run|]. split; [discriminate|]. intros _.
    rewrite bind_trace. cbn [ret traceOf snd]. rewrite app_nil_r.
    destruct (work_no_cycle _ Ht) as [Hc Hx].
    destruct (mainLoop_cycles e n (worldOf (startup e w))) as [Hc' Hx'].
    rewrite completedCycles_app, existsb_app, Hc, Hx, Hc', Hx'. auto.
  - destruct Ht as [line Ht]. cbn [ret valueOf worldOf traceOf fst snd].
    split; [reflexivity|]. split; [|discriminate]. intros _.
    rewrite app_nil_r. fold (traceOf (startup e w)). rewrite Ht.
    fold (worldOf (startup e w)). rewrite Hd. repeat split.
Qed.

Lemma main_exits_unless_ready_witness :
  completedCycles (traceOf (main calmEnv 3 emptyWorld)) = 3%nat /\
  existsb isExit (traceOf (main calmEnv 3 emptyWorld)) = false.
Proof.
  exact (proj2 (proj2 (main_exits_unless_ready calmEnv 3 emptyWorld)) eq_refl).
Defined.

(** ** findKeywords, characterised *)



(** Each keyword is judged on its own: the result for a concatenation of
    keyword lists is the concatenation of the results, and so are the
    printed lines. *)
Theorem findKeywords_app (text : string) (ks1 ks2 : list string) :
  findKeywords text (ks1 ++ ks2) = findKeywords text ks1 ++ findKeywords text ks2 /\
  findKeywords_output text (ks1 ++ ks2)
  = findKeywords_output text ks1 ++ findKeywords_output text ks2.
Proof.
  rewrite !findKeywords_filter, !findKeywords_output_spec.
  now rewrite !List.filter_app, map_app.
Qed.

(** ** The JSON-file variant *)

Lemma fbind_run {A B : Type} (m : FileStore.FM A) (k : A -> FileStore.FM B)
    (w : FileStore.FileWorld) :
  FileStore.fbind m k w
  = (FileStore.fvalue (k (FileStore.fvalue (m w)) (FileStore.fworld (m w))),
     FileStore.fworld (k (FileStore.fvalue (m w)) (FileStore.fworld (m w))),
     FileStore.ftrace (m w)
     ++ FileStore.ftrace (k (FileStore.fvalue (m w)) (FileStore.fworld (m w)))).
Proof.
  unfold FileStore.fbind, FileStore.fvalue, FileStore.fworld, FileStore.ftrace.
  destruct (m w) as [[a w1] t1]. cbn [fst snd].
  destruct (k a w1) as [[b w2] t2]. reflexivity.
Qed.

Lemma file_processPosts_body_item (e : FileStore.FileEnv) (post : Post) (nm : bool) :
  FileStore.processPosts_body e post nm
  = FileStore.processItem e KPost (Post_Title post +:+ " " +:+ Post_Selftext post)
      (Post_Subreddit post) (Post_Permalink post) nm.
Proof. reflexivity. Qed.

Lemma file_processComments_body_item (e : FileStore.FileEnv) (comment : Comment)
    (nm : bool) :
  FileStore.processComments_body e comment nm
  = FileStore.processItem e KComment (Comment_Body comment)
      (Comment_Subreddit comment) (Comment_Permalink comment) nm.
Proof. reflexivity. Qed.

(** The loop body of the file variant, branch by branch. *)
Lemma file_processItem_run (e : FileStore.FileEnv) (k : Kind)
    (text subreddit id : string) (nm : bool) (w : FileStore.FileWorld) :
  FileStore.processItem e k text subreddit id nm w =
  match FileStore.processedIDs w !! id with
  | Some _ => (nm, w, [])
  | None =>
      let found := findKeywords text keywords in
      let looked :=
        FileStore.Base (EvFindKeywords text found)
        :: map (fun l => FileStore.Base (EvPrint l))
             (findKeywords_output text keywords) in
      if (0 <? List.length found)%nat then
        if smtpFails (FileStore.base e) (FileStore.ftick w) then
          (nm,
           FileStore.mkFileWorld (S (FileStore.ftick w)) (FileStore.file w)
             (FileStore.processedIDs w) (FileStore.processedIDsFile w),
           looked
           ++ [FileStore.Base (EvPrint (LFoundKeywords k found subreddit id));
               FileStore.Base
                 (EvSendEmail (alertSubject k subreddit) (alertBody k found id)
                    (Some (ErrOther "failed to send email")));
               FileStore.Base (EvPrint (LErrSendingEmail k))])
        else
          (true,
           FileStore.mkFileWorld (S (FileStore.ftick w)) (FileStore.file w)
             (<[id := true]> (FileStore.processedIDs w))
             (FileStore.processedIDsFile w),
           looked
           ++ [FileStore.Base (EvPrint (LFoundKeywords k found subreddit id));
               FileStore.Base
                 (EvSendEmail (alertSubject k subreddit) (alertBody k found id) None);
               FileStore.Base
                 (EvPrint (LEmailSent (recipientEmail (FileStore.base e))))])
      else (nm, w, looked)
  end.
Proof.
  unfold FileStore.processItem, FileStore.fbind, FileStore.getProcessedIDs.
  destruct (FileStore.processedIDs w !! id); [reflexivity|].
  unfold FileStore.runFindKeywords, findKeywords, findKeywords_output.
  destruct (findKeywords_run text keywords) as [found out]. cbn [fst snd].
  destruct (0 <? List.length found)%nat;
    [|unfold FileStore.fret; cbn; now rewrite app_nil_r].
  unfold FileStore.lift, sendEmail, bind, ask, emit, fmt_Println, ret,
    FileStore.println, FileStore.femit, FileStore.setProcessedIDs, FileStore.fret.
  cbn [tick docs uniqueIndex FileStore.ftick FileStore.file FileStore.processedIDs
       FileStore.processedIDsFile].
  destruct (smtpFails (FileStore.base e) (FileStore.ftick w)); reflexivity.
Qed.

Lemma fbind_trace {A B : Type} (m : FileStore.FM A) (k : A -> FileStore.FM B)
    (w : FileStore.FileWorld) :
  FileStore.ftrace (FileStore.fbind m k w)
  = FileStore.ftrace (m w)
    ++ FileStore.ftrace (k (FileStore.fvalue (m w)) (FileStore.fworld (m w))).
Proof. now rewrite fbind_run. Qed.

Lemma fbind_world {A B : Type} (m : FileStore.FM A) (k : A -> FileStore.FM B)
    (w : FileStore.FileWorld) :
  FileStore.fworld (FileStore.fbind m k w)
  = FileStore.fworld (k (FileStore.fvalue (m w)) (FileStore.fworld (m w))).
Proof. now rewrite fbind_run. Qed.


Lemma still_save (e : FileStore.FileEnv) (filename : string) :
  FileStore.still (FileStore.saveProcessedIDs e filename).
Proof.
  intros w. unfold FileStore.saveProcessedIDs.
  destruct (FileStore.writeOutcome e (FileStore.ftick w)); split; reflexivity.
Qed.

Lemma still_lift_fetchPosts (e : Env) (endpoint : string) :
  FileStore.still (FileStore.lift (fetchPosts e endpoint)).
Proof.
  intros w. unfold FileStore.lift.
  pose proof (fetchPosts_effect e endpoint (mkWorld (FileStore.ftick w) [] false))
    as [_ Ht].
  destruct (fetchPosts e endpoint _) as [[a w'] t]. cbn [traceOf snd] in Ht.
  subst t. cbn [FileStore.ftrace FileStore.fworld fst snd FileStore.processedIDs].
  split; [|reflexivity]. now destruct (url_refused e endpoint).
Qed.

Lemma still_lift_fetchComments (e : Env) (endpoint : string) :
  FileStore.still (FileStore.lift (fetchComments e endpoint)).
Proof.
  intros w. unfold FileStore.lift.
  pose proof (fetchComments_effect e endpoint (mkWorld (FileStore.ftick w) [] false))
    as [_ Ht].
  destruct (fetchComments e endpoint _) as [[a w'] t]. cbn [traceOf snd] in Ht.
  subst t. cbn [FileStore.ftrace FileStore.fworld fst snd FileStore.processedIDs].
  split; [|reflexivity]. now destruct (url_refused e endpoint).
Qed.

Section FileKeeping.

Variable I : list FileStore.FileEvent -> FileStore.FileWorld -> Prop.

Hypothesis I_still :
  forall (tr : list FileStore.FileEvent) (w : FileStore.FileWorld)
         (evs : list FileStore.FileEvent) (w' : FileStore.FileWorld),
    I tr w -> forallb FileStore.quiet evs = true ->
    FileStore.processedIDs w' = FileStore.processedIDs w ->
    I (tr ++ evs) w'.

Hypothesis I_item :
  forall (e : FileStore.FileEnv) (k : Kind) (text subreddit id : string) (nm : bool),
    FileStore.keeps I (FileStore.processItem e k text subreddit id nm).

Lemma fkeeps_still {A : Type} (m : FileStore.FM A) :
  FileStore.still m -> FileStore.keeps I m.
Proof.
  intros H tr w HI. destruct (H w) as [Hq Hm]. now apply (I_still tr w).
Qed.

Lemma fkeeps_bind {A B : Type} (m : FileStore.FM A) (k : A -> FileStore.FM B) :
  FileStore.keeps I m -> (forall a, FileStore.keeps I (k a)) ->
  FileStore.keeps I (FileStore.fbind m k).
Proof.
  intros Hm Hk tr w HI. rewrite fbind_trace, fbind_world, app_assoc.
  apply Hk. now apply Hm.
Qed.

Lemma fkeeps_ret {A : Type} (a : A) : FileStore.keeps I (FileStore.fret a).
Proof. apply fkeeps_still. intros w. split; reflexivity. Qed.

Lemma fkeeps_emit (ev : FileStore.FileEvent) :
  FileStore.quiet ev = true -> FileStore.keeps I (FileStore.femit ev).
Proof.
  intros Hq. apply fkeeps_still. intros w. cbn. rewrite Hq. auto.
Qed.

Lemma fkeeps_save_after (e : FileStore.FileEnv) (k : Kind) (nm : bool) :
  FileStore.keeps I
    (if nm then
       FileStore.fbind (fun w => (FileStore.processedIDsFile w, w, []))
         (fun filename =>
            FileStore.fbind (FileStore.saveProcessedIDs e filename)
              (fun err => match err with
                          | Some _ => FileStore.printlnFile (FileStore.LErrSaving k)
                          | None => FileStore.fret tt
                          end))
     else FileStore.fret tt).
Proof.
  destruct nm; [|apply fkeeps_ret].
  apply fkeeps_bind; [apply fkeeps_still; intros w; split; reflexivity|].
  intros filename. apply fkeeps_bind; [apply fkeeps_still, still_save|].
  intros [err|]; [now apply fkeeps_emit | apply fkeeps_ret].
Qed.

Lemma fkeeps_processPosts_loop (e : FileStore.FileEnv) (posts : list Post) (nm : bool) :
  FileStore.keeps I (FileStore.processPosts_loop e posts nm).
Proof.
  revert nm; induction posts as [|post rest IH]; intros nm; [apply fkeeps_ret|].
  cbn [FileStore.processPosts_loop]. apply fkeeps_bind; [|intros nm'; apply IH].
  rewrite file_processPosts_body_item. apply I_item.
Qed.

Lemma fkeeps_processComments_loop (e : FileStore.FileEnv) (comments : list Comment)
    (nm : bool) :
  FileStore.keeps I (FileStore.processComments_loop e comments nm).
Proof.
  revert nm; induction comments as [|comment rest IH]; intros nm; [apply fkeeps_ret|].
  cbn [FileStore.processComments_loop]. apply fkeeps_bind; [|intros nm'; apply IH].
  rewrite file_processComments_body_item. apply I_item.
Qed.

Lemma fkeeps_processPosts (e : FileStore.FileEnv) (posts : list Post) :
  FileStore.keeps I (FileStore.processPosts e posts).
Proof.
  unfold FileStore.processPosts. apply fkeeps_bind;
    [apply fkeeps_processPosts_loop | intros nm; apply fkeeps_save_after].
Qed.

Lemma fkeeps_processComments (e : FileStore.FileEnv) (comments : list Comment) :
  FileStore.keeps I (FileStore.processComments e comments).
Proof.
  unfold FileStore.processComments. apply fkeeps_bind;
    [apply fkeeps_processComments_loop | intros nm; apply fkeeps_save_after].
Qed.

Lemma fkeeps_cycle (e : FileStore.FileEnv) : FileStore.keeps I (FileStore.cycle e).
Proof.
  unfold FileStore.cycle.
  apply fkeeps_bind; [now apply fkeeps_emit|]. intros _.
  apply fkeeps_bind; [apply fkeeps_still, still_lift_fetchPosts|].
  intros [posts [err|]].
  - apply fkeeps_bind; [now apply fkeeps_emit|]. intros _.
    apply fkeeps_bind; [apply fkeeps_still, still_lift_fetchComments|].
    intros [comments [err'|]];
      (apply fkeeps_bind;
       [first [now apply fkeeps_emit | apply fkeeps_processComments]
       | intros _; now apply fkeeps_emit]).
  - apply fkeeps_bind; [apply fkeeps_processPosts|]. intros _.
    apply fkeeps_bind; [apply fkeeps_still, still_lift_fetchComments|].
    intros [comments [err'|]];
      (apply fkeeps_bind;
       [first [now apply fkeeps_emit | apply fkeeps_processComments]
       | intros _; now apply fkeeps_emit]).
Qed.

Lemma fkeeps_mainLoop (e : FileStore.FileEnv) (n : nat) :
  FileStore.keeps I (FileStore.mainLoop e n).
Proof.
  induction n as [|n IH]; [apply fkeeps_ret|].
  cbn [FileStore.mainLoop]. apply fkeeps_bind; [apply fkeeps_cycle | intros _; exact IH].
Qed.

End FileKeeping.

(** *** Deliveries in a history of the file variant *)




Lemma file_quiet_no_alert (id : string) (evs : list FileStore.FileEvent) :
  forallb FileStore.quiet evs = true ->
  forall ev, In ev evs -> ~ FileStore.isAlertFor id ev.
Proof.
  intros Hq ev Hin (k & found & subject & err & _ & ->).
  rewrite forallb_forall in Hq. now specialize (Hq _ Hin).
Qed.

(** The events of looking for the keywords of one text. *)
Lemma file_looked_quiet (text : string) (found : list string) (out : list Line) :
  forallb FileStore.quiet
    (FileStore.Base (EvFindKeywords text found)
     :: map (fun l => FileStore.Base (EvPrint l)) out) = true.
Proof.
  cbn. induction out as [|l out IH]; [reflexivity|exact IH].
Qed.

(** *** The three invariants of the loop of the file variant *)



Lemma file_knownAndSilent_still (id0 : string)
    (tr : list FileStore.FileEvent) (w : FileStore.FileWorld)
    (evs : list FileStore.FileEvent) (w' : FileStore.FileWorld) :
  FileStore.knownAndSilent id0 tr w -> forallb FileStore.quiet evs = true ->
  FileStore.processedIDs w' = FileStore.processedIDs w ->
  FileStore.knownAndSilent id0 (tr ++ evs) w'.
Proof.
  intros [Hk Hno] Hq Hm. split; [now rewrite Hm|].
  intros ev Hin. apply in_app_or in Hin. destruct Hin as [Hin|Hin];
    [now apply Hno | now apply (file_quiet_no_alert id0 evs Hq)].
Qed.

Lemma file_knownAndSilent_item (id0 : string) (e : FileStore.FileEnv)
    (k : Kind) (text subreddit id : string) (nm : bool) :
  FileStore.keeps (FileStore.knownAndSilent id0)
    (FileStore.processItem e k text subreddit id nm).
Proof.
  intros tr w HI. rewrite file_processItem_run.
  destruct (FileStore.processedIDs w !! id) as [b|] eqn:Hid.
  { now apply (file_knownAndSilent_still id0 tr w). }
  cbv zeta. pose proof (findKeywords_sublist text keywords) as Hs.
  pose proof (file_looked_quiet text (findKeywords text keywords)
                (findKeywords_output text keywords)) as Hl.
  destruct (0 <? List.length (findKeywords text keywords))%nat.
  2:{ now apply (file_knownAndSilent_still id0 tr w). }
  destruct HI as [Hk Hno].
  assert (Hne : id0 <> id).
  { intros ->. rewrite Hid in Hk. now destruct Hk. }
  assert (Hsend : forall err,
            ~ FileStore.isAlertFor id0
                (FileStore.Base (EvSendEmail (alertSubject k subreddit)
                                   (alertBody k (findKeywords text keywords) id) err))).
  { intros err (k' & found' & subject' & err' & Hs' & Heq).
    injection Heq as _ Hb _. apply Hne. symmetry.
    exact (alertBody_inj _ _ _ _ _ _ Hs Hs' Hb). }
  destruct (smtpFails (FileStore.base e) (FileStore.ftick w));
    unfold FileStore.knownAndSilent;
    cbn [FileStore.fworld FileStore.ftrace fst snd FileStore.processedIDs].
  - split; [exact Hk|]. intros ev Hin.
    apply in_app_or in Hin. destruct Hin as [Hin|Hin]; [now apply Hno|].
    apply in_app_or in Hin. destruct Hin as [Hin|Hin];
      [now apply (file_quiet_no_alert id0 _ Hl)|].
    cbn in Hin. destruct Hin as [<-|[<-|[<-|[]]]];
      [|apply Hsend|]; intros (? & ? & ? & ? & _ & Heq); discriminate Heq.
  - split; [rewrite lookup_insert_ne by congruence; exact Hk|]. intros ev Hin.
    apply in_app_or in Hin. destruct Hin as [Hin|Hin]; [now apply Hno|].
    apply in_app_or in Hin. destruct Hin as [Hin|Hin];
      [now apply (file_quiet_no_alert id0 _ Hl)|].
    cbn in Hin. destruct Hin as [<-|[<-|[<-|[]]]];
      [|apply Hsend|]; intros (? & ? & ? & ? & _ & Heq); discriminate Heq.
Qed.

Lemma file_growsFrom_still (m0 : gmap string bool)
    (tr : list FileStore.FileEvent) (w : FileStore.FileWorld)
    (evs : list FileStore.FileEvent) (w' : FileStore.FileWorld) :
  FileStore.growsFrom m0 tr w -> forallb FileStore.quiet evs = true ->
  FileStore.processedIDs w' = FileStore.processedIDs w ->
  FileStore.growsFrom m0 (tr ++ evs) w'.
Proof. unfold FileStore.growsFrom. intros HI _ ->. exact HI. Qed.

Lemma file_growsFrom_item (m0 : gmap string bool) (e : FileStore.FileEnv)
    (k : Kind) (text subreddit id : string) (nm : bool) :
  FileStore.keeps (FileStore.growsFrom m0)
    (FileStore.processItem e k text subreddit id nm).
Proof.
  intros tr w HI. rewrite file_processItem_run. unfold FileStore.growsFrom in *.
  destruct (FileStore.processedIDs w !! id) as [b|] eqn:Hid; [exact HI|].
  cbv zeta. destruct (0 <? List.length (findKeywords text keywords))%nat; [|exact HI].
  destruct (smtpFails (FileStore.base e) (FileStore.ftick w));
    cbn [FileStore.fworld fst snd FileStore.processedIDs]; [exact HI|].
  etransitivity; [exact HI|]. now apply insert_subseteq.
Qed.

(** *** The start of a process of the file variant *)

(** [main] up to the loop, when the configuration is complete: what is
    loaded, and what the first save leaves on the disk. *)
Lemma file_startup_run (e : FileStore.FileEnv) (w : FileStore.FileWorld) :
  FileStore.emailConfigured e = true ->
  let r := FileStore.startup e (FileStore.boot e w) in
  let loaded :=
    match FileStore.file w with
    | FileStore.JsonMap m => if FileStore.readFails e (FileStore.ftick w) then ∅ else m
    | _ => ∅
    end in
  FileStore.fvalue r = None /\
  forallb FileStore.quiet (FileStore.ftrace r) = true /\
  FileStore.processedIDs (FileStore.fworld r) = loaded /\
  FileStore.file (FileStore.fworld r)
  = match FileStore.writeOutcome e (S (FileStore.ftick w)) with
    | FileStore.WriteOK => FileStore.JsonMap loaded
    | FileStore.WriteRefused => FileStore.file w
    | FileStore.WriteTorn => FileStore.Garbage
    end.
Proof.
  intros Hc. unfold FileStore.emailConfigured in Hc.
  apply negb_true_iff in Hc.
  unfold FileStore.startup, FileStore.boot, FileStore.fbind, FileStore.println,
    FileStore.printlnFile, FileStore.femit, FileStore.fret, FileStore.loadProcessedIDs,
    FileStore.saveProcessedIDs, FileStore.setProcessedIDs.
  rewrite Hc.
  cbn [FileStore.ftick FileStore.file FileStore.processedIDs FileStore.processedIDsFile].
  destruct (String.eqb (os_Getenv (FileStore.base e) "PROCESSED_IDS_PATH") "");
    cbn [FileStore.ftick FileStore.file FileStore.processedIDs
         FileStore.processedIDsFile];
    destruct (FileStore.file w) as [| |m];
    try destruct (FileStore.readFails e (FileStore.ftick w));
    cbn [FileStore.ftick FileStore.file FileStore.processedIDs
         FileStore.processedIDsFile];
    destruct (FileStore.writeOutcome e (S (FileStore.ftick w)));
    cbn [FileStore.fvalue FileStore.fworld FileStore.ftrace fst snd
         FileStore.ftick FileStore.file FileStore.processedIDs
         FileStore.processedIDsFile];
    rewrite ?(right_id_L ∅ (∪));
    repeat split; reflexivity.
Qed.

(** *** Saving the map *)








Lemma file_startup_unconfigured (e : FileStore.FileEnv) (w : FileStore.FileWorld) :
  FileStore.emailConfigured e = false ->
  FileStore.startup e w
  = (Some 1%Z, w,
     [FileStore.Base (EvPrint LStarting); FileStore.Base (EvPrint LFatalEmailEnv);
      FileStore.Base (EvExit 1)]).
Proof.
  intros Hc. unfold FileStore.emailConfigured in Hc. apply negb_false_iff in Hc.
  unfold FileStore.startup, FileStore.fbind, FileStore.println, FileStore.femit,
    FileStore.fret. now rewrite Hc.
Qed.

Lemma file_main_run (e : FileStore.FileEnv) (n : nat) (w : FileStore.FileWorld) :
  FileStore.emailConfigured e = true ->
  let s := FileStore.startup e (FileStore.boot e w) in
  FileStore.main e n w
  = (None, FileStore.fworld (FileStore.mainLoop e n (FileStore.fworld s)),
     FileStore.ftrace s ++ FileStore.ftrace (FileStore.mainLoop e n (FileStore.fworld s))).
Proof.
  intros Hc. cbv zeta. destruct (file_startup_run e w Hc) as (Hv & _).
  unfold FileStore.main. rewrite fbind_run, Hv.
  rewrite fbind_run. cbn. now rewrite app_nil_r.
Qed.

(** *** The file variant: what a process does with its map and its file *)


(** File variant, in-memory map.  The loop of [main] only adds to the
    map: every permalink in it stays, with its value. *)
Theorem file_map_only_grows (e : FileStore.FileEnv) (n : nat)
    (w : FileStore.FileWorld) :
  FileStore.processedIDs w
  ⊆ FileStore.processedIDs (FileStore.fworld (FileStore.mainLoop e n w)).
Proof.
  assert (H0 : FileStore.growsFrom (FileStore.processedIDs w) [] w).
  { unfold FileStore.growsFrom. reflexivity. }
  exact (fkeeps_mainLoop (FileStore.growsFrom (FileStore.processedIDs w))
           (file_growsFrom_still _) (file_growsFrom_item _) e n [] w H0).
Qed.


(** File variant, restart.  When the file holds a map with the
    permalink [id] and it is read without error at the start of the
    process, the process sends no alert for [id], whatever is fetched
    and for any number of iterations. *)
Theorem file_saved_item_never_alerted_after_restart (e : FileStore.FileEnv)
    (n : nat) (w : FileStore.FileWorld) (m : gmap string bool) (id : string) :
  FileStore.fileLoads e w m -> is_Some (m !! id) ->
  forall ev, In ev (FileStore.ftrace (FileStore.main e n w)) ->
             ~ FileStore.isAlertFor id ev.
Proof.
  intros [Hf Hr] Hid. destruct (FileStore.emailConfigured e) eqn:Hc.
  - rewrite (file_main_run e n w Hc). cbv zeta.
    destruct (file_startup_run e w Hc) as (_ & Hq & Hm & _).
    rewrite Hf, Hr in Hm. cbn [FileStore.ftrace snd].
    assert (H0 : FileStore.knownAndSilent id
                   (FileStore.ftrace (FileStore.startup e (FileStore.boot e w)))
                   (FileStore.fworld (FileStore.startup e (FileStore.boot e w)))).
    { split; [now rewrite Hm | now apply file_quiet_no_alert]. }
    exact (proj2 (fkeeps_mainLoop (FileStore.knownAndSilent id)
                    (file_knownAndSilent_still _) (file_knownAndSilent_item _)
                    e n _ _ H0)).
  - unfold FileStore.main. rewrite fbind_run, (file_startup_unconfigured _ _ Hc).
    cbn. intros ev [<-|[<-|[<-|[]]]] (? & ? & ? & ? & _ & Heq); discriminate Heq.
Qed.

(** File variant, start of the process.  When the file is there and
    cannot be used (the read fails, or what it holds is not JSON),
    [main] goes on with an empty map, and its first save, when it
    succeeds, replaces the file by the empty map: the permalinks saved
    by earlier processes are gone. *)
Theorem file_unusable_file_is_overwritten (e : FileStore.FileEnv)
    (w : FileStore.FileWorld) :
  FileStore.emailConfigured e = true -> FileStore.fileUnusable e w ->
  FileStore.writeOutcome e (S (FileStore.ftick w)) = FileStore.WriteOK ->
  let r := FileStore.startup e (FileStore.boot e w) in
  FileStore.fvalue r = None /\
  FileStore.processedIDs (FileStore.fworld r) = ∅ /\
  FileStore.file (FileStore.fworld r) = FileStore.JsonMap ∅.
Proof.
  intros Hc Hu Hw. destruct (file_startup_run e w Hc) as (Hv & _ & Hm & Hf).
  rewrite Hw in Hf. cbv zeta.
  destruct Hu as [Hg|(m & Hj & Hr)].
  - rewrite Hg in Hm, Hf. auto.
  - rewrite Hj, Hr in Hm, Hf. auto.
Qed.


Lemma file_saved_item_never_alerted_after_restart_witness :
  ~ FileStore.isAlertFor "/r/test/1"
      (FileStore.Base
         (EvSendEmail (alertSubject KComment "test")
            (alertBody KComment ["leads"] "/r/test/1/c1") None)).
Proof.
  apply (file_saved_item_never_alerted_after_restart FileStore.calmFileEnv 1
           FileStore.savedWorld {[ "/r/test/1" := true ]} "/r/test/1").
  - split; reflexivity.
  - exists true. vm_compute. reflexivity.
  - vm_compute. repeat (try (left; reflexivity); right).
Defined.

Lemma file_unusable_file_is_overwritten_witness :
  FileStore.file
    (FileStore.fworld
       (FileStore.startup FileStore.calmFileEnv
          (FileStore.boot FileStore.calmFileEnv FileStore.tornWorld)))
  = FileStore.JsonMap ∅.
Proof.
  apply (file_unusable_file_is_overwritten FileStore.calmFileEnv FileStore.tornWorld).
  - reflexivity.
  - left. reflexivity.
  - reflexivity.
Defined.


(** ** The matcher of the first listing *)








(** ** The requests to Reddit *)








(** ** The file variant: a delivery that is not saved *)





(** ** The unique index and the loop *)










